(** * LocationWeatherCard: area-name resolution and request lifecycle

    A shallow embedding of [src/LocationWeatherCard.jsx].  The component
    keeps six pieces of React state, derives a short area label from a
    Nominatim address object, reads the current temperature from an
    Open-Meteo payload and renders the outcome.  The embedding follows the
    component function by function:

    - [Js]: the fragment of JavaScript values the component computes with
      (strings that may be [undefined], numbers, parsed JSON, settled
      promises, [Number.prototype.toFixed]);
    - [Resolver]: [buildShortAreaName];
    - [Controller]: the state, the mount effect, [reverseGeocodeArea],
      [fetchCurrentTempC], [getLocationAndWeather] with its two callbacks,
      and the derived [tempText]. *)

From Stdlib Require Import ZArith NArith Ascii String List DecimalString.
From Stdlib Require Import Floats.SpecFloat.
From stdpp Require Import base option gmap strings.

Local Open Scope string_scope.

(** ** JavaScript values *)

Module Js.

(** A property read on a parsed address object yields a string or
    [undefined]; [None] stands for [undefined]. *)
Definition truthy (v : option string) : bool :=
  match v with
  | Some s => negb (String.eqb s "")
  | None => false
  end.

(** [a || b] *)
Definition or (a b : option string) : option string :=
  if truthy a then a else b.

(** [a || "literal"]: the right operand is a string, so is the result. *)
Definition or_lit (a : option string) (lit : string) : string :=
  match a with
  | Some s => if String.eqb s "" then lit else s
  | None => lit
  end.

(** [a !== b] *)
Definition strict_neq (a b : option string) : bool :=
  negb (bool_decide (a = b)).

(** [`${v}`] *)
Definition to_string (v : option string) : string :=
  match v with
  | Some s => s
  | None => "undefined"
  end.

(** What an expression such as [data.address] may evaluate to. *)
Inductive nullable (A : Type) : Type :=
  | js_undefined
  | js_null
  | js_object (a : A).
Arguments js_undefined {A}.
Arguments js_null {A}.
Arguments js_object {A} a.

(** *** Promises and exceptions *)

(** A thrown [Error] object; the component only reads its [message]. *)
Record Error := { message : string }.

(** A promise once it has settled. *)
Inductive settled (A : Type) : Type :=
  | fulfilled (a : A)
  | rejected (reason : Error).
Arguments fulfilled {A} a.
Arguments rejected {A} reason.

(** [Promise.all([p, q])]: fulfilled with both values when both fulfil,
    rejected otherwise with the reason of the promise that rejected
    first; [q_first] tells which of the two is settled first. *)
Definition Promise_all {A B} (q_first : bool) (p : settled A) (q : settled B)
  : settled (A * B) :=
  match p, q with
  | fulfilled a, fulfilled b => fulfilled (a, b)
  | rejected e, fulfilled _ => rejected e
  | fulfilled _, rejected e => rejected e
  | rejected e1, rejected e2 => rejected (if q_first then e2 else e1)
  end.

(** *** Numbers

    A JavaScript number is an IEEE-754 binary64 datum: a signed zero, a
    signed infinity, NaN, or [(-1)^s * m * 2^e]. *)
Abbreviation number := spec_float.

Definition Infinity : number := S754_infinity false.
Definition NaN : number := S754_nan.

(** [Number.isFinite(x)] *)
Definition isFinite (x : number) : bool :=
  match x with
  | S754_zero _ | S754_finite _ _ _ => true
  | S754_infinity _ | S754_nan => false
  end.

(** The decimal digits of a non-negative integer, ["0"] for zero. *)
Definition decimal (n : N) : string :=
  NilZero.string_of_uint (N.to_uint n).

Fixpoint zeros (k : nat) : string :=
  match k with
  | O => ""
  | S k' => String "0"%char (zeros k')
  end.

(** [bound <= m * 2^e], on integers. *)
Definition magnitude_ge (m : positive) (e : Z) (bound : Z) : bool :=
  if (0 <=? e)%Z then (bound <=? Z.pos m * 2 ^ e)%Z
  else (bound * 2 ^ (- e) <=? Z.pos m)%Z.

(** The integer [n] for which [n / 10^f - m * 2^e] is closest to zero, the
    larger one when two are equally close. *)
Definition nearest_scaled (m : positive) (e : Z) (f : nat) : Z :=
  let p := (10 ^ Z.of_nat f)%Z in
  if (0 <=? e)%Z then (Z.pos m * 2 ^ e * p)%Z
  else ((2 * Z.pos m * p + 2 ^ (- e)) / (2 * 2 ^ (- e)))%Z.

(** [Number::toString] of a finite binary64 of magnitude [m * 2^e] at
    least [10^21]: the shortest digit string [s] and the power [p] with
    [s * 10^p] rounding back to the number (to nearest, ties to even),
    printed in exponent form. *)
Section ShortestDigits.

Variables (m : positive) (e : Z).

Let X : Z := (Z.pos m * 2 ^ e)%Z.
Let above : Z := (2 ^ (e - 1))%Z.
Let below : Z :=
  (if Z.pos m =? 2 ^ 52 then 2 ^ (e - 2) else 2 ^ (e - 1))%Z.

Definition rounds_back (V : Z) : bool :=
  if Z.even (Z.pos m)
  then ((X - below <=? V) && (V <=? X + above))%Z
  else ((X - below <? V) && (V <? X + above))%Z.

Fixpoint shortest_from (p : nat) : Z * Z :=
  let q := (10 ^ Z.of_nat p)%Z in
  let lo := (X / q * q)%Z in
  let hi := (lo + q)%Z in
  let here :=
    match rounds_back lo, rounds_back hi with
    | true, true => Some (if (X - lo <=? hi - X)%Z then lo else hi)
    | true, false => Some lo
    | false, true => Some hi
    | false, false => None
    end in
  match here, p with
  | Some V, _ => ((V / q)%Z, Z.of_nat p)
  | None, S p' => shortest_from p'
  | None, O => (X, 0%Z)
  end.

Definition exponent_form : string :=
  let '(s, p) := shortest_from (Z.to_nat (Z.log2 X)) in
  let digits := decimal (Z.to_N s) in
  let n := (p + Z.of_nat (String.length digits))%Z in
  match digits with
  | String d "" => String d "" +:+ "e+" +:+ decimal (Z.to_N (n - 1))
  | String d rest =>
      String d "" +:+ "." +:+ rest +:+ "e+" +:+ decimal (Z.to_N (n - 1))
  | "" => ""
  end.

End ShortestDigits.

(** [Number::toString] of a number that is not finite. *)
Definition toString_not_finite (x : number) : string :=
  match x with
  | S754_infinity false => "Infinity"
  | S754_infinity true => "-Infinity"
  | _ => "NaN"
  end.

(** [x.toFixed(f)] for [0 <= f <= 100] (ECMA-262, Number.prototype.toFixed):
    a number that is not finite prints as [Number::toString] does; a
    magnitude of [10^21] or more prints in exponent form; otherwise the
    nearest integer multiple of [10^-f] is printed with [f] digits after
    the point, and a minus sign when [x < 0]. *)
Definition toFixed (x : number) (f : nat) : string :=
  match x with
  | S754_zero _ =>
      if Nat.eqb f 0 then "0" else "0" +:+ "." +:+ zeros f
  | S754_finite s m e =>
      let sign := if s then "-" else "" in
      if magnitude_ge m e (10 ^ 21) then sign +:+ exponent_form m e
      else
        let n := nearest_scaled m e f in
        let digits := decimal (Z.to_N n) in
        if Nat.eqb f 0 then sign +:+ digits
        else
          let k := String.length digits in
          let digits := if (k <=? f)%nat then zeros (f + 1 - k) +:+ digits else digits in
          let k := if (k <=? f)%nat then (f + 1)%nat else k in
          sign +:+ substring 0 (k - f) digits +:+ "." +:+ substring (k - f) f digits
  | _ => toString_not_finite x
  end.

(** A text "formatted to one decimal place": an optional minus sign, one
    or more digits, a point, one digit. *)
Definition is_digit (c : ascii) : bool :=
  (48 <=? nat_of_ascii c)%nat && (nat_of_ascii c <=? 57)%nat.

Fixpoint all_digits (s : string) : bool :=
  match s with
  | "" => true
  | String c rest => is_digit c && all_digits rest
  end.

Fixpoint digits_point_digit (seen_digit : bool) (s : string) : bool :=
  match s with
  | "" => false
  | String c rest =>
      if is_digit c then digits_point_digit true rest
      else if Ascii.eqb c "." then
        seen_digit &&
        match rest with
        | String d "" => is_digit d
        | _ => false
        end
      else false
  end.

Definition one_decimal_place (s : string) : bool :=
  match s with
  | String "-" rest => digits_point_digit false rest
  | _ => digits_point_digit false s
  end.

(** The numbers [toFixed] prints in fixed notation: the finite ones of
    magnitude below [10^21]. *)
Definition has_fixed_notation (x : number) : bool :=
  match x with
  | S754_zero _ => true
  | S754_finite _ m e => negb (magnitude_ge m e (10 ^ 21))
  | _ => false
  end.

(** [round(10 * |x|)], halves rounded up: the magnitude of [x] in tenths. *)
Definition tenths (x : number) : N :=
  match x with
  | S754_finite _ m e => Z.to_N (nearest_scaled m e 1)
  | _ => 0
  end.

(** ["-"] when [x < 0]. *)
Definition minus_sign (x : number) : string :=
  match x with
  | S754_finite true _ _ => "-"
  | _ => ""
  end.

(** *** Parsed JSON *)

#[warnings="-register-all"]
Inductive json : Type :=
  | j_null
  | j_bool (b : bool)
  | j_number (x : number)
  | j_string (s : string)
  | j_array (items : list json)
  | j_object (members : list (string * json)).

(** The member named [k] of an object written with [members]; as in
    [JSON.parse], a later duplicate replaces an earlier one. *)
Fixpoint member (k : string) (members : list (string * json)) : option json :=
  match members with
  | [] => None
  | (k', v) :: rest =>
      match member k rest with
      | Some w => Some w
      | None => if String.eqb k k' then Some v else None
      end
  end.

(** [v?.k] for a name [k] that no prototype defines: [undefined] when [v]
    is [undefined] or [null] and when [v] has no such member. *)
Definition optional_get (v : option json) (k : string) : option json :=
  match v with
  | Some (j_object members) => member k members
  | _ => None
  end.

End Js.

(** ** AreaNameResolver *)

Module Resolver.

Import Js.

(** The [address] member of a Nominatim [jsonv2] answer: locality names
    keyed by field name, every value a string.  A field that is not there
    reads as [undefined]. *)
Abbreviation AddressAttributes := (gmap string string).

Section BuildShortAreaName.

Variable address : AddressAttributes.

(** lines 28-38 *)
Definition local : option string :=
  or (or (or (or (or (or (or (or (or
    (address !! "neighbourhood")
    (address !! "quarter"))
    (address !! "suburb"))
    (address !! "city_district"))
    (address !! "borough"))
    (address !! "town"))
    (address !! "village"))
    (address !! "city"))
    (address !! "county"))
    (address !! "state").

(** lines 40-45 *)
Definition cityLike : option string :=
  or (or (or (or
    (address !! "city")
    (address !! "town"))
    (address !! "village"))
    (address !! "county"))
    (address !! "state").

End BuildShortAreaName.

(** lines 47-49, as a function of the two values just computed *)
Definition join_label (local cityLike : option string) : string :=
  if truthy local && truthy cityLike && strict_neq local cityLike
  then to_string local +:+ ", " +:+ to_string cityLike
  else or_lit (or local cityLike) "Unknown area".

(** lines 24-50; [!address] holds of [undefined] and of [null] *)
Definition buildShortAreaName (address : nullable AddressAttributes) : string :=
  match address with
  | js_object a => join_label (local a) (cityLike a)
  | _ => "Unknown area"
  end.

(** *** The resolver as the specification words it *)

Definition local_order : list string :=
  ["neighbourhood"; "quarter"; "suburb"; "city_district"; "borough";
   "town"; "village"; "city"; "county"; "state"].

Definition cityLike_order : list string :=
  ["city"; "town"; "village"; "county"; "state"].

(** A value as the specification reads it: present when it is a
    non-empty string, absent when it is [undefined] or empty. *)
Definition non_empty (v : option string) : option string :=
  if truthy v then v else None.

(** The first non-empty value among [fields], in that order. *)
Fixpoint first_non_empty (fields : list string) (address : AddressAttributes)
  : option string :=
  match fields with
  | [] => None
  | f :: rest =>
      match address !! f with
      | Some s => if String.eqb s "" then first_non_empty rest address else Some s
      | None => first_non_empty rest address
      end
  end.

(** "[{local}, {cityLike}]" when both exist and differ, the one that
    exists otherwise, the sentinel when neither does. *)
Definition resolveAreaLabel (address : AddressAttributes) : string :=
  match first_non_empty local_order address,
        first_non_empty cityLike_order address with
  | Some l, Some c => if String.eqb l c then l else l +:+ ", " +:+ c
  | Some l, None => l
  | None, Some c => c
  | None, None => "Unknown area"
  end.

End Resolver.


(** ** LocationWeatherController *)

Module Controller.

Import Js Resolver.

(** *** State (lines 4-13) *)

Module Status.
(** [idle | requesting | success | error] *)
Inductive t : Set := idle | requesting | success | error.

Definition eqb (a b : t) : bool :=
  match a, b with
  | idle, idle | requesting, requesting | success, success | error, error => true
  | _, _ => false
  end.
End Status.

Record State := {
  isSupported : bool;
  status : Status.t;
  error : option string;      (* [null] or a message *)
  areaName : string;
  tempC : option number;      (* [null] or a number *)
  updatedAt : option Z;       (* [null] or milliseconds since the epoch *)
}.

(** The values passed to [useState]. *)
Definition initial : State := {|
  isSupported := true;
  status := Status.idle;
  error := None;
  areaName := "—";
  tempC := None;
  updatedAt := None;
|}.

(** *** Collaborators *)

Record PositionOptions := {
  enableHighAccuracy : bool;
  timeout : Z;
  maximumAge : Z;
}.

(** A value handed to [URLSearchParams]: a string literal or [String(x)]
    of a coordinate. *)
Inductive param : Type :=
  | literal (s : string)
  | String_of (x : number).

(** What the component asks of the browser. *)
Inductive request : Type :=
  | getCurrentPosition (options : PositionOptions)
  | fetch (endpoint : string) (query : list (string * param))
          (headers : list (string * string)).

Module Response.
(** A [fetch] response: its status and what [res.json()] settles to. *)
Record t (B : Type) := { status : N; json : settled B }.
Arguments status {B} _.
Arguments json {B} _.

(** [res.ok]: the status is in the range 200-299. *)
Definition ok {B} (res : t B) : bool :=
  ((200 <=? status res) && (status res <=? 299))%N.
End Response.

Module GeolocationPosition.
Record coords_t := { latitude : number; longitude : number }.
Record t := { coords : coords_t }.
End GeolocationPosition.

Module GeolocationPositionError.
Record t := { message : string; code : N }.
End GeolocationPositionError.

(** The parsed body of a reverse-geocoding answer as [reverseGeocodeArea]
    sees it: JSON [null], on which [data.address] throws, or a value whose
    [address] member is missing, [null] or an address object. *)
Inductive geocode_body : Type :=
  | body_null
  | body_with (address : nullable AddressAttributes).

(** Everything the browser and the two services decide.  Each request is
    taken to settle; the component sets no timeout on its lookups. *)
Record Environment := {
  (** ["geolocation" in navigator] *)
  geolocation_in_navigator : bool;
  (** what the request to Nominatim settles to *)
  nominatim : number -> number -> settled (Response.t geocode_body);
  (** what the request to Open-Meteo settles to *)
  open_meteo : number -> number -> settled (Response.t json);
  (** whether the weather lookup settles before the area lookup *)
  weather_settles_first : bool;
  (** [Date.now()] when both lookups have resolved *)
  Date_now : Z;
  (** the message of the [TypeError] raised by reading [property] of
      [undefined] or [null] *)
  cannot_read : string -> string;
}.

(** *** Effects

    A handler reads and writes the component state, issues requests and
    may throw.  Each request is logged with the state it was issued in. *)
Definition Eff (A : Type) : Type :=
  State -> settled A * State * list (State * request).

Definition ret {A} (a : A) : Eff A := fun st => (fulfilled a, st, []).

Definition bind {A B} (m : Eff A) (k : A -> Eff B) : Eff B :=
  fun st =>
    match m st with
    | (fulfilled a, st', out) =>
        let '(r, st'', out') := k a st' in (r, st'', (out ++ out')%list)
    | (rejected e, st', out) => (rejected e, st', out)
    end.

Notation "'let*' x := m 'in' k" := (bind m (fun x => k))
  (at level 10, x pattern, m at level 100, k at level 200).
Notation "m ;; k" := (bind m (fun _ => k))
  (at level 100, k at level 200, right associativity).

Definition throw {A} (e : Js.Error) : Eff A := fun st => (rejected e, st, []).

(** [try { body } catch (e) { handler(e) }] *)
Definition try_catch {A} (body : Eff A) (handler : Js.Error -> Eff A) : Eff A :=
  fun st =>
    match body st with
    | (rejected e, st', out) =>
        let '(r, st'', out') := handler e st' in (r, st'', (out ++ out')%list)
    | done => done
    end.

(** Calling an [async] function: its requests go out, and the caller
    holds a promise instead of seeing the exception. *)
Definition async {A} (body : Eff A) : Eff (settled A) :=
  fun st => let '(r, st', out) := body st in (fulfilled r, st', out).

(** [await p] *)
Definition await {A} (p : settled A) : Eff A :=
  fun st => (p, st, []).

Definition issue (r : request) : Eff unit :=
  fun st => (fulfilled tt, st, [(st, r)]).

Definition setIsSupported (v : bool) : Eff unit := fun st =>
  (fulfilled tt,
   {| isSupported := v; status := status st; error := error st;
      areaName := areaName st; tempC := tempC st; updatedAt := updatedAt st |}, []).
Definition setStatus (v : Status.t) : Eff unit := fun st =>
  (fulfilled tt,
   {| isSupported := isSupported st; status := v; error := error st;
      areaName := areaName st; tempC := tempC st; updatedAt := updatedAt st |}, []).
Definition setError (v : option string) : Eff unit := fun st =>
  (fulfilled tt,
   {| isSupported := isSupported st; status := status st; error := v;
      areaName := areaName st; tempC := tempC st; updatedAt := updatedAt st |}, []).
Definition setAreaName (v : string) : Eff unit := fun st =>
  (fulfilled tt,
   {| isSupported := isSupported st; status := status st; error := error st;
      areaName := v; tempC := tempC st; updatedAt := updatedAt st |}, []).
Definition setTempC (v : option number) : Eff unit := fun st =>
  (fulfilled tt,
   {| isSupported := isSupported st; status := status st; error := error st;
      areaName := areaName st; tempC := v; updatedAt := updatedAt st |}, []).
Definition setUpdatedAt (v : option Z) : Eff unit := fun st =>
  (fulfilled tt,
   {| isSupported := isSupported st; status := status st; error := error st;
      areaName := areaName st; tempC := tempC st; updatedAt := v |}, []).

(** The state a handler leaves and the requests it issued. *)
Definition state_after {A} (m : Eff A) (st : State) : State := (m st).1.2.
Definition issued {A} (m : Eff A) (st : State) : list (State * request) :=
  (m st).2.
Definition outcome {A} (m : Eff A) (st : State) : settled A := (m st).1.1.

Section Component.

Variable env : Environment.

(** lines 15-21 *)
Definition mount_effect : Eff unit :=
  if negb (geolocation_in_navigator env) then
    setIsSupported false ;;
    setStatus Status.error ;;
    setError (Some "Geolocation is not supported in this browser.")
  else ret tt.

(** lines 52-68 *)
Definition reverseGeocodeArea (lat lng : number) : Eff string :=
  issue (fetch "https://nominatim.openstreetmap.org/reverse?"
           [("format", literal "jsonv2");
            ("lat", String_of lat);
            ("lon", String_of lng);
            ("zoom", literal "14");
            ("addressdetails", literal "1")]
           [("Accept", "application/json")]) ;;
  let* res := await (nominatim env lat lng) in
  if negb (Response.ok res) then
    throw {| message := "Area lookup failed (" +:+ decimal (Response.status res) +:+ ")" |}
  else
    let* data := await (Response.json res) in
    match data with
    | body_null => throw {| message := cannot_read env "address" |}
    | body_with address => ret (buildShortAreaName address)
    end.

(** lines 70-88 *)
Definition fetchCurrentTempC (lat lng : number) : Eff number :=
  issue (fetch "https://api.open-meteo.com/v1/forecast?"
           [("latitude", String_of lat);
            ("longitude", String_of lng);
            ("current", literal "temperature_2m");
            ("timezone", literal "auto")]
           [("Accept", "application/json")]) ;;
  let* res := await (open_meteo env lat lng) in
  if negb (Response.ok res) then
    throw {| message := "Weather fetch failed (" +:+ decimal (Response.status res) +:+ ")" |}
  else
    let* data := await (Response.json res) in
    let t := optional_get (optional_get (Some data) "current") "temperature_2m" in
    match t with
    | Some (j_number x) => ret x
    | _ => throw {| message := "Weather data missing temperature." |}
    end.

(** lines 98-117: the success callback of [getCurrentPosition] *)
Definition position_callback (pos : GeolocationPosition.t) : Eff unit :=
  let lat := GeolocationPosition.latitude (GeolocationPosition.coords pos) in
  let lng := GeolocationPosition.longitude (GeolocationPosition.coords pos) in
  try_catch
    (let* area_promise := async (reverseGeocodeArea lat lng) in
     let* temp_promise := async (fetchCurrentTempC lat lng) in
     let* (area, temp) :=
       await (Promise_all (weather_settles_first env) area_promise temp_promise) in
     setAreaName area ;;
     setTempC (Some temp) ;;
     setUpdatedAt (Some (Date_now env)) ;;
     setStatus Status.success)
    (fun e =>
       setStatus Status.error ;;
       setError (Some (or_lit (Some (message e)) "Failed to load area/weather."))).

(** lines 118-121: the error callback of [getCurrentPosition] *)
Definition error_callback (err : GeolocationPositionError.t) : Eff unit :=
  setStatus Status.error ;;
  setError (Some (GeolocationPositionError.message err +:+ " (code "
                  +:+ decimal (GeolocationPositionError.code err) +:+ ")")).

(** lines 90-97 and 122-127 *)
Definition getLocationAndWeather : Eff unit :=
  setStatus Status.requesting ;;
  setError None ;;
  setAreaName "—" ;;
  setTempC None ;;
  setUpdatedAt None ;;
  if geolocation_in_navigator env then
    issue (getCurrentPosition
             {| enableHighAccuracy := true; timeout := 12000; maximumAge := 0 |})
  else throw {| message := cannot_read env "getCurrentPosition" |}.

(** A whole cycle: the trigger, then the provider's answer. *)
Definition cycle_with_position (pos : GeolocationPosition.t) : Eff unit :=
  getLocationAndWeather ;; position_callback pos.

End Component.

(** lines 141-142 *)
Definition tempText (st : State) : string :=
  match tempC st with
  | Some t => toFixed t 1 +:+ "°C"
  | None => if Status.eqb (status st) Status.requesting then "…" else "—"
  end.

(** lines 183-187: the [disabled] attribute of the button *)
Definition button_disabled (st : State) : bool :=
  Status.eqb (status st) Status.requesting || negb (isSupported st).

(** line 186: a click runs [getLocationAndWeather], unless the button is
    disabled, in which case the browser delivers no click at all. *)
Definition click (env : Environment) : Eff unit :=
  fun st => if button_disabled st then ret tt st else getLocationAndWeather env st.

(** *** Sample environments *)

Module Sample.

(** 48.5 and 2.25, as binary64 data *)
Definition paris : GeolocationPosition.t :=
  {| GeolocationPosition.coords :=
       {| GeolocationPosition.latitude := S754_finite false (97 * 2 ^ 46) (-47);
          GeolocationPosition.longitude := S754_finite false (9 * 2 ^ 49) (-51) |} |}.

Definition le_marais : AddressAttributes :=
  {[ "neighbourhood" := "Le Marais"; "city" := "Paris" ]}.

(** 21.5 *)
Definition mild : number := S754_finite false (43 * 2 ^ 47) (-48).

Definition weather_payload (t : json) : json :=
  j_object [("current", j_object [("temperature_2m", t)])].

Definition answers {B} (code : N) (body : B) : settled (Response.t B) :=
  fulfilled {| Response.status := code; Response.json := fulfilled body |}.

(** Both services answer 200. *)
Definition online (address : nullable AddressAttributes) (t : json)
  : Environment := {|
  geolocation_in_navigator := true;
  nominatim := fun _ _ => answers 200 (body_with address);
  open_meteo := fun _ _ => answers 200 (weather_payload t);
  weather_settles_first := false;
  Date_now := 1700000000000;
  cannot_read := fun property =>
    "Cannot read properties of undefined (reading '" +:+ property +:+ "')";
|}.


(** The area service answers 500, the weather service 200. *)
Definition area_down : Environment := {|
  geolocation_in_navigator := true;
  nominatim := fun _ _ => answers 500 body_null;
  open_meteo := fun _ _ => answers 200 (weather_payload (j_number mild));
  weather_settles_first := true;
  Date_now := 1700000000000;
  cannot_read := fun property =>
    "Cannot read properties of null (reading '" +:+ property +:+ "')";
|}.

(** The weather service answers 503. *)
Definition weather_down : Environment := {|
  geolocation_in_navigator := true;
  nominatim := fun _ _ => answers 200 (body_with (js_object le_marais));
  open_meteo := fun _ _ => answers 503 j_null;
  weather_settles_first := false;
  Date_now := 1700000000000;
  cannot_read := fun property =>
    "Cannot read properties of null (reading '" +:+ property +:+ "')";
|}.

(** A state left by an earlier, successful cycle. *)
Definition earlier_success : State := {|
  isSupported := true;
  status := Status.success;
  error := None;
  areaName := "Le Marais, Paris";
  tempC := Some mild;
  updatedAt := Some 1600000000000%Z;
|}.

(** A state left by an earlier, failed cycle. *)
Definition earlier_error : State := {|
  isSupported := true;
  status := Status.error;
  error := Some "Weather fetch failed (503)";
  areaName := "—";
  tempC := None;
  updatedAt := None;
|}.

End Sample.

End Controller.

(** ** Rendering *)

Module Rendering.

Import Js Resolver Controller.

(** A value of a style object: a string or a number. *)
Inductive css : Type :=
  | css_text (s : string)
  | css_number (x : number).

(** [{...base, k1: v1, k2: v2, ...}]: a copy of [base] in which the listed
    properties are set, in that order. *)
Definition spread (base : gmap string css) (props : list (string * css))
  : gmap string css :=
  foldl (fun o kv => <[kv.1 := kv.2]> o) base props.

(** lines 224-232: [styles.badge]; the numbers are 999, 12, 700 and 0.5 *)
Definition styles_badge : gmap string css :=
  spread ∅
    [("alignSelf", css_text "start");
     ("padding", css_text "6px 10px");
     ("borderRadius", css_number (S754_finite false (999 * 2 ^ 43) (-43)));
     ("fontSize", css_number (S754_finite false (3 * 2 ^ 51) (-49)));
     ("fontWeight", css_number (S754_finite false (175 * 2 ^ 45) (-43)));
     ("border", css_text "1px solid");
     ("letterSpacing", css_number (S754_finite false (2 ^ 52) (-53)))].

(** lines 258-265: [styles.button]; the numbers are 12 and 700 *)
Definition styles_button : gmap string css :=
  spread ∅
    [("border", css_text "none");
     ("borderRadius", css_number (S754_finite false (3 * 2 ^ 51) (-49)));
     ("padding", css_text "10px 14px");
     ("fontWeight", css_number (S754_finite false (175 * 2 ^ 45) (-43)));
     ("background", css_text "#111827");
     ("color", css_text "#fff")].

(** lines 130-139 *)
Definition badgeStyle (status : Status.t) : gmap string css :=
  let base := spread styles_badge [] in
  match status with
  | Status.success =>
      spread base [("background", css_text "#e7f7ed");
                   ("color", css_text "#137a3d");
                   ("borderColor", css_text "#bfe8cf")]
  | Status.requesting =>
      spread base [("background", css_text "#fff7e6");
                   ("color", css_text "#8a5a00");
                   ("borderColor", css_text "#ffe0a3")]
  | Status.error =>
      spread base [("background", css_text "#fdeaea");
                   ("color", css_text "#a11b1b");
                   ("borderColor", css_text "#f6c1c1")]
  | Status.idle =>
      spread base [("background", css_text "#eef2ff");
                   ("color", css_text "#2b3a8a");
                   ("borderColor", css_text "#cdd6ff")]
  end.

(** The string the [status] state holds. *)
Definition status_string (status : Status.t) : string :=
  match status with
  | Status.idle => "idle"
  | Status.requesting => "requesting"
  | Status.success => "success"
  | Status.error => "error"
  end.

(** [s.toUpperCase()] on a string of ASCII letters *)
Definition upper (c : ascii) : ascii :=
  let n := nat_of_ascii c in
  if (97 <=? n)%nat && (n <=? 122)%nat then ascii_of_nat (n - 32) else c.

Fixpoint toUpperCase (s : string) : string :=
  match s with
  | "" => ""
  | String c rest => String (upper c) (toUpperCase rest)
  end.

(** What [{updatedAt && <div>...</div>}] puts on the page: nothing for
    [null], the bare number for [0], the line for any other time. *)
Inductive updated_line : Type :=
  | no_line
  | bare_zero
  | updated (ms : Z).

(** 0.6 and 1 *)
Definition dimmed : number := S754_finite false 5404319552844595 (-53).
Definition opaque : number := S754_finite false (2 ^ 52) (-52).

(** lines 144-199: what the markup shows of the state. *)
Record View := {
  badge_style : gmap string css;                 (* line 152 *)
  badge_text : string;                           (* line 152 *)
  unsupported_alert : bool;                      (* lines 155-157 *)
  error_alert : option string;                   (* line 159 *)
  area_value : string;                           (* line 164 *)
  temperature_value : string;                    (* line 169 *)
  updated_at : updated_line;                     (* lines 173-177 *)
  button_style : gmap string css;                (* lines 181-185 *)
  button_is_disabled : bool;                     (* line 187 *)
  button_label : string;                         (* line 189 *)
}.

Definition render (st : State) : View :=
  {| badge_style := badgeStyle (status st);
     badge_text := toUpperCase (status_string (status st));
     unsupported_alert := negb (isSupported st);
     error_alert := if truthy (error st) then error st else None;
     area_value := areaName st;
     temperature_value := tempText st;
     updated_at :=
       match updatedAt st with
       | None => no_line
       | Some ms => if (ms =? 0)%Z then bare_zero else updated ms
       end;
     button_style :=
       spread styles_button
         [("opacity",
           css_number
             (if Status.eqb (status st) Status.requesting || negb (isSupported st)
              then dimmed else opaque));
          ("cursor",
           css_text
             (if Status.eqb (status st) Status.requesting || negb (isSupported st)
              then "not-allowed" else "pointer"))];
     button_is_disabled := button_disabled st;
     button_label :=
       if Status.eqb (status st) Status.requesting
       then "Loading..." else "Get Area + Weather" |}.

End Rendering.

(** ** The component in the browser *)

Module Lifecycle.

Import Js Resolver Controller.

(** The component state together with what is under way: the number of
    [getCurrentPosition] calls whose callback is still to come, and the
    success callbacks that have started their two lookups and wait for
    them to settle, each with its position and with the environment that
    decides how its lookups settle. *)
Record Running := {
  ui : State;
  awaiting : nat;
  in_flight : list (Environment * GeolocationPosition.t);
}.

(** The cycles in progress. *)
Definition pending (sys : Running) : nat :=
  awaiting sys + length (in_flight sys).

(** What can happen to a mounted component: the user clicks the button;
    the geolocation provider answers an outstanding call, once, through
    one of the two callbacks; the lookups of a suspended success callback
    settle. *)
Inductive event : Type :=
  | clicked (env : Environment)
  | position_found (env : Environment) (pos : GeolocationPosition.t)
  | lookups_settled (i : nat)
  | position_failed (err : GeolocationPositionError.t).

(** The position requests among the requests issued. *)
Definition is_position_request (r : request) : bool :=
  match r with
  | getCurrentPosition _ => true
  | fetch _ _ _ => false
  end.

Definition position_requests (out : list (State * request)) : nat :=
  length (List.filter (fun r => is_position_request r.2) out).

(** An answer comes only to an outstanding call.  The success callback is
    an [async] function (lines 98-117): when the position arrives it
    starts both lookups, which sends their requests, and suspends at
    [await Promise.all], the state untouched; when the lookups have
    settled it resumes and writes the state it then finds. *)
Definition step (ev : event) (sys : Running) : Running * list (State * request) :=
  match ev with
  | clicked env =>
      let '(_, st, out) := click env (ui sys) in
      ({| ui := st; awaiting := awaiting sys + position_requests out;
          in_flight := in_flight sys |}, out)
  | position_found env pos =>
      match awaiting sys with
      | O => (sys, [])
      | S n =>
          ({| ui := ui sys; awaiting := n;
              in_flight := in_flight sys ++ [(env, pos)] |},
           issued (position_callback env pos) (ui sys))
      end
  | lookups_settled i =>
      match in_flight sys !! i with
      | None => (sys, [])
      | Some (env, pos) =>
          ({| ui := state_after (position_callback env pos) (ui sys);
              awaiting := awaiting sys;
              in_flight := delete i (in_flight sys) |}, [])
      end
  | position_failed err =>
      match awaiting sys with
      | O => (sys, [])
      | S n =>
          let '(_, st, out) := error_callback err (ui sys) in
          ({| ui := st; awaiting := n + position_requests out;
              in_flight := in_flight sys |}, out)
      end
  end.

(** The environment an event brings, if any. *)
Definition event_env (ev : event) : option Environment :=
  match ev with
  | clicked env | position_found env _ => Some env
  | lookups_settled _ | position_failed _ => None
  end.

(** The states of a component mounted in a browser in which
    ["geolocation" in navigator] is [geo]. *)
Inductive reachable (geo : bool) : Running -> Prop :=
  | reach_mounted (env : Environment) :
      geolocation_in_navigator env = geo ->
      reachable geo {| ui := state_after (mount_effect env) initial;
                       awaiting := 0; in_flight := [] |}
  | reach_step (ev : event) (sys : Running) :
      reachable geo sys ->
      (forall env, event_env ev = Some env ->
                   geolocation_in_navigator env = geo) ->
      reachable geo (step ev sys).1.

(** A component mounted in a browser with geolocation, clicked once, its
    position found, its lookups settled while both services answer. *)
Definition sample_mounted : Running :=
  {| ui := state_after
             (mount_effect
                (Sample.online (js_object Sample.le_marais) (j_number Sample.mild)))
             initial;
     awaiting := 0; in_flight := [] |}.

Definition sample_requesting : Running :=
  (step (clicked (Sample.online (js_object Sample.le_marais)
                    (j_number Sample.mild)))
     sample_mounted).1.

Definition sample_in_flight : Running :=
  (step (position_found
           (Sample.online (js_object Sample.le_marais) (j_number Sample.mild))
           Sample.paris)
     sample_requesting).1.

Definition sample_done : Running :=
  (step (lookups_settled 0) sample_in_flight).1.


(** What the browser's capability and the status say about the rest of
    the state. *)
Definition consistent (geo : bool) (sys : Running) : Prop :=
  let st := ui sys in
  isSupported st = geo /\
  match geo, status st with
  | false, Status.error =>
      pending sys = 0 /\
      error st = Some "Geolocation is not supported in this browser." /\
      areaName st = "—" /\ tempC st = None /\ updatedAt st = None
  | false, _ => False
  | true, Status.idle =>
      pending sys = 0 /\ error st = None /\
      areaName st = "—" /\ tempC st = None /\ updatedAt st = None
  | true, Status.requesting =>
      pending sys = 1 /\ error st = None /\
      areaName st = "—" /\ tempC st = None /\ updatedAt st = None
  | true, Status.success =>
      pending sys = 0 /\ error st = None /\
      is_Some (tempC st) /\ is_Some (updatedAt st)
  | true, Status.error =>
      pending sys = 0 /\ (exists m, error st = Some m /\ m <> "") /\
      areaName st = "—" /\ tempC st = None /\ updatedAt st = None
  end.

End Lifecycle.

(** * Properties *)

Import Js Resolver Controller.

(** ** AreaNameResolver *)

Section ResolverFacts.

Implicit Types (a : AddressAttributes) (v w : option string).

Lemma non_empty_or v w :
  non_empty (or v w) =
  match non_empty v with Some s => Some s | None => non_empty w end.
Proof.
  unfold non_empty, or. destruct (truthy v) eqn:Hv.
  - rewrite Hv. destruct v; [reflexivity | discriminate].
  - reflexivity.
Qed.

Lemma first_non_empty_cons f fields a :
  first_non_empty (f :: fields) a =
  match non_empty (a !! f) with
  | Some s => Some s
  | None => first_non_empty fields a
  end.
Proof.
  cbn [first_non_empty]. unfold non_empty, truthy.
  destruct (a !! f) as [s|]; [|done]. by destruct (String.eqb s "").
Qed.

Ltac by_field_cases a :=
  repeat match goal with
         | |- context [non_empty (a !! ?f)] =>
             destruct (non_empty (a !! f)); try reflexivity
         end.

Lemma local_first_non_empty a :
  non_empty (local a) = first_non_empty local_order a.
Proof.
  unfold local, local_order.
  rewrite !non_empty_or, !first_non_empty_cons. cbn [first_non_empty].
  by_field_cases a.
Qed.

Lemma cityLike_first_non_empty a :
  non_empty (cityLike a) = first_non_empty cityLike_order a.
Proof.
  unfold cityLike, cityLike_order.
  rewrite !non_empty_or, !first_non_empty_cons. cbn [first_non_empty].
  by_field_cases a.
Qed.

Lemma non_empty_Some v s : non_empty v = Some s -> v = Some s /\ s <> "".
Proof.
  unfold non_empty, truthy. destruct v as [t|]; [|discriminate].
  destruct (String.eqb_spec t ""); cbn; [discriminate|].
  intros [= ->]. done.
Qed.


Lemma first_non_empty_is_non_empty fields a s :
  first_non_empty fields a = Some s -> s <> "".
Proof.
  induction fields as [|f fields IH]; [discriminate|].
  rewrite first_non_empty_cons.
  destruct (non_empty (a !! f)) as [t|] eqn:Hf; [|exact IH].
  intros [= <-]. by apply non_empty_Some in Hf as [_ ?].
Qed.

(** A city-like value is also a local value: [cityLike_order] is a
    sublist of [local_order]. *)
Lemma cityLike_implies_local a c :
  first_non_empty cityLike_order a = Some c ->
  exists l, first_non_empty local_order a = Some l.
Proof.
  unfold cityLike_order, local_order.
  rewrite !first_non_empty_cons. cbn [first_non_empty].
  repeat match goal with
         | |- context [non_empty (a !! ?f)] =>
             destruct (non_empty (a !! f)); eauto
         end.
Qed.

Lemma join_label_spec v w :
  join_label v w =
  match non_empty v, non_empty w with
  | Some l, Some c => if String.eqb l c then l else l +:+ ", " +:+ c
  | Some l, None => l
  | None, Some c => c
  | None, None => "Unknown area"
  end.
Proof.
  unfold join_label, non_empty, or, or_lit, strict_neq, to_string, truthy.
  destruct v as [l|], w as [c|]; cbn.
  - destruct (String.eqb_spec l ""), (String.eqb_spec c ""); subst; cbn;
      rewrite ?String.eqb_refl; try done.
    + by destruct (String.eqb c "") eqn:E; [apply String.eqb_eq in E|].
    + by destruct (String.eqb l "") eqn:E; [apply String.eqb_eq in E|].
    + case_bool_decide as Heq; cbn.
      * injection Heq as ->. rewrite String.eqb_refl.
        by destruct (String.eqb c "") eqn:E; [apply String.eqb_eq in E|].
      * destruct (String.eqb_spec l c); [congruence | done].
  - destruct (String.eqb_spec l ""); subst; cbn; [done|].
    by destruct (String.eqb l "") eqn:E; [apply String.eqb_eq in E|].
  - destruct (String.eqb_spec c ""); subst; cbn; [done|].
    by destruct (String.eqb c "") eqn:E; [apply String.eqb_eq in E|].
  - done.
Qed.

Lemma buildShortAreaName_object a :
  buildShortAreaName (js_object a) = resolveAreaLabel a.
Proof.
  unfold buildShortAreaName, resolveAreaLabel.
  by rewrite join_label_spec, local_first_non_empty, cityLike_first_non_empty.
Qed.

Lemma append_non_empty (s t : string) : s <> "" -> s +:+ t <> "".
Proof. by destruct s. Qed.

Lemma resolveAreaLabel_non_empty a : resolveAreaLabel a <> "".
Proof.
  unfold resolveAreaLabel.
  destruct (first_non_empty local_order a) as [l|] eqn:Hl,
           (first_non_empty cityLike_order a) as [c|] eqn:Hc;
    try pose proof (first_non_empty_is_non_empty _ _ _ Hl) as Hl';
    try pose proof (first_non_empty_is_non_empty _ _ _ Hc) as Hc'; try done.
  destruct (String.eqb l c); [done | by apply append_non_empty].
Qed.

End ResolverFacts.

(** C3. For every address object, [local] is the first non-empty value in
    the order neighbourhood, quarter, suburb, city_district, borough, town,
    village, city, county, state, and [cityLike] the first non-empty value
    in the order city, town, village, county, state; for
    [{suburb: "X", town: "Y", city: "Z"}] this gives local = "X" and
    cityLike = "Z". *)
Theorem local_and_cityLike_priority :
  (forall a : AddressAttributes,
      non_empty (local a) = first_non_empty local_order a /\
      non_empty (cityLike a) = first_non_empty cityLike_order a) /\
  local_order =
    ["neighbourhood"; "quarter"; "suburb"; "city_district"; "borough";
     "town"; "village"; "city"; "county"; "state"] /\
  cityLike_order = ["city"; "town"; "village"; "county"; "state"] /\
  (let a : AddressAttributes :=
     {[ "suburb" := "X"; "town" := "Y"; "city" := "Z" ]} in
   local a = Some "X" /\ cityLike a = Some "Z").
Proof.
  split; [|repeat split; vm_compute; reflexivity].
  intros a. split.
  - apply local_first_non_empty.
  - apply cityLike_first_non_empty.
Qed.

(** C4. For every address object the label is "[local], [cityLike]" when
    both values are non-empty and differ as strings, and the single
    non-empty value, [local] first, when they are equal or only one is
    non-empty; [{city: "Berlin", state: "Berlin"}] gives "Berlin" and
    [{neighbourhood: "Le Marais", city: "Paris"}] gives
    "Le Marais, Paris". *)
Theorem label_joins_or_dedups :
  (forall a : AddressAttributes,
      buildShortAreaName (js_object a) =
      match first_non_empty local_order a,
            first_non_empty cityLike_order a with
      | Some l, Some c => if String.eqb l c then l else l +:+ ", " +:+ c
      | Some l, None => l
      | None, Some c => c
      | None, None => "Unknown area"
      end) /\
  buildShortAreaName (js_object {[ "city" := "Berlin"; "state" := "Berlin" ]})
    = "Berlin" /\
  buildShortAreaName
    (js_object {[ "neighbourhood" := "Le Marais"; "city" := "Paris" ]})
    = "Le Marais, Paris".
Proof.
  split; [|split; vm_compute; reflexivity].
  intros a. apply buildShortAreaName_object.
Qed.

(** C5. For every address input, whichever fields are populated, the
    label is a non-empty string; the empty object gives "Unknown area". *)
Theorem label_never_empty :
  (forall a : AddressAttributes, buildShortAreaName (js_object a) <> "") /\
  (forall address : nullable AddressAttributes,
      buildShortAreaName address <> "") /\
  buildShortAreaName (js_object (∅ : AddressAttributes)) = "Unknown area".
Proof.
  assert (forall a : AddressAttributes, buildShortAreaName (js_object a) <> "")
    as Hobject.
  { intros a. rewrite buildShortAreaName_object.
    apply resolveAreaLabel_non_empty. }
  split; [exact Hobject|]. split; [|vm_compute; reflexivity].
  intros [| |a]; [discriminate..|apply Hobject].
Qed.

(** ** Number formatting *)

Section FormatFacts.

Implicit Types (s t : string) (c : ascii).

Lemma app_cons c s t : String c s +:+ t = String c (s +:+ t).
Proof. reflexivity. Qed.

Lemma app_empty_l t : "" +:+ t = t.
Proof. reflexivity. Qed.

Lemma app_length s t :
  String.length (s +:+ t) = (String.length s + String.length t)%nat.
Proof. induction s as [|c s IH]; [done|]. rewrite app_cons. cbn. by rewrite IH. Qed.

Lemma app_cancel_r s1 s2 t : s1 +:+ t = s2 +:+ t -> s1 = s2.
Proof.
  revert s2. induction s1 as [|c1 s1 IH]; intros [|c2 s2] H.
  - done.
  - apply (f_equal String.length) in H.
    rewrite ?app_cons in H. cbn in H. rewrite !app_length in H. cbn in H. lia.
  - apply (f_equal String.length) in H.
    rewrite ?app_cons in H. cbn in H. rewrite !app_length in H. cbn in H. lia.
  - rewrite !app_cons in H. injection H as -> H. f_equal. by apply IH.
Qed.

Lemma substring_take_cons m c s :
  substring 0 (S m) (String c s) = String c (substring 0 m s).
Proof. reflexivity. Qed.

Lemma substring_skip_cons n m c s :
  substring (S n) m (String c s) = substring n m s.
Proof. reflexivity. Qed.

(** A non-empty string is its first [length - 1] characters followed by
    its last one. *)
Lemma split_last s :
  s <> "" ->
  exists a c,
    s = a +:+ String c "" /\
    substring 0 (String.length s - 1) s = a /\
    substring (String.length s - 1) 1 s = String c "".
Proof.
  induction s as [|c s IH]; [done|]. intros _.
  destruct s as [|c' s'].
  - by exists "", c.
  - destruct IH as (a & d & Hs & Ha & Hd); [done|].
    exists (String c a), d. rewrite app_cons, <- Hs.
    cbn [String.length] in *. set (n := String.length s') in *.
    replace (S n - 1)%nat with n in * by lia.
    replace (S (S n) - 1)%nat with (S n) by lia.
    split; [done|]. split.
    + by rewrite substring_take_cons, Ha.
    + by rewrite substring_skip_cons.
Qed.

Lemma all_digits_app s t :
  all_digits (s +:+ t) = all_digits s && all_digits t.
Proof.
  induction s as [|c s IH]; [done|].
  rewrite app_cons. cbn -[is_digit]. by rewrite IH, andb_assoc.
Qed.

Lemma digits_point_digit_app (seen : bool) (a : string) c :
  all_digits a = true -> is_digit c = true ->
  (if seen then true else negb (String.eqb a "")) = true ->
  digits_point_digit seen (a +:+ "." +:+ String c "") = true.
Proof.
  revert seen. induction a as [|d a IH]; intros seen Ha Hc Hseen.
  - destruct seen; [|done]. rewrite app_empty_l.
    change (true && is_digit c = true). by rewrite Hc.
  - rewrite app_cons. cbn -[is_digit] in Ha |- *.
    apply andb_prop in Ha as [Hd Ha]. rewrite Hd. by apply IH.
Qed.


Lemma one_decimal_place_intro (sign a : string) c :
  sign = "" \/ sign = "-" ->
  all_digits a = true -> a <> "" -> is_digit c = true ->
  one_decimal_place (sign +:+ a +:+ "." +:+ String c "") = true.
Proof.
  intros Hsign Ha Hne Hc.
  assert (digits_point_digit false (a +:+ "." +:+ String c "") = true) as Hbody.
  { apply digits_point_digit_app; [done..|]. by destruct a. }
  destruct Hsign as [-> | ->].
  - rewrite app_empty_l. destruct a as [|d a]; [done|].
    rewrite app_cons in *. cbn -[is_digit] in Ha.
    apply andb_prop in Ha as [Hd _].
    unfold one_decimal_place.
    destruct d as [[] [] [] [] [] [] [] []]; try exact Hbody; discriminate Hd.
  - exact Hbody.
Qed.

Lemma string_of_uint_digits (d : Decimal.uint) :
  all_digits (NilEmpty.string_of_uint d) = true.
Proof. induction d; cbn; done. Qed.

Lemma decimal_digits (n : N) :
  all_digits (decimal n) = true /\ decimal n <> "".
Proof.
  unfold decimal, NilZero.string_of_uint.
  destruct (N.to_uint n) eqn:E; cbn; split; try done;
    apply (string_of_uint_digits (_ _)) || apply string_of_uint_digits.
Qed.

(** [nearest_scaled m e 1] is the integer nearest to [10 * m * 2^e],
    the upper one of two equally near. *)
Lemma nearest_scaled_is_nearest (m : positive) (e : Z) :
  let n := nearest_scaled m e 1 in
  if (0 <=? e)%Z then n = (10 * (Z.pos m * 2 ^ e))%Z
  else ((2 * n - 1) * 2 ^ (- e) <= 20 * Z.pos m < (2 * n + 1) * 2 ^ (- e))%Z.
Proof.
  unfold nearest_scaled. change (10 ^ Z.of_nat 1)%Z with 10%Z.
  destruct (0 <=? e)%Z eqn:He; cbn zeta; [lia|].
  apply Z.leb_gt in He.
  assert (0 < 2 ^ (- e))%Z as Hd by (apply Z.pow_pos_nonneg; lia).
  set (d := (2 ^ (- e))%Z) in *.
  pose proof (Z.mul_div_le (2 * Z.pos m * 10 + d) (2 * d) ltac:(lia)).
  pose proof (Z.mul_succ_div_gt (2 * Z.pos m * 10 + d) (2 * d) ltac:(lia)).
  lia.
Qed.

(** In fixed notation [x.toFixed(1)] is a sign, the digits of
    [round(10 * |x|)] but the last, a point, and the last digit. *)
Lemma toFixed_one_decimal (x : number) :
  has_fixed_notation x = true ->
  exists whole tenth,
    toFixed x 1 = minus_sign x +:+ whole +:+ "." +:+ String tenth "" /\
    whole +:+ String tenth "" =
      (if (String.length (decimal (tenths x)) <=? 1)%nat
       then "0" +:+ decimal (tenths x) else decimal (tenths x)) /\
    one_decimal_place (toFixed x 1) = true.
Proof.
  destruct x as [sg|sg| |sg m e]; try discriminate; intros Hfix.
  { by exists "0", "0"%char. }
  cbn [has_fixed_notation] in Hfix. apply negb_true_iff in Hfix.
  unfold toFixed, tenths, minus_sign. rewrite Hfix. cbn [Nat.eqb].
  destruct (decimal_digits (Z.to_N (nearest_scaled m e 1))) as [Hall Hne].
  generalize dependent (decimal (Z.to_N (nearest_scaled m e 1))).
  intros digits Hall Hne.
  assert ((if sg then "-" else "") = "" \/ (if sg then "-" else "") = "-")
    as Hsign by (destruct sg; auto).
  destruct (String.length digits <=? 1)%nat eqn:Hk.
  - apply Nat.leb_le in Hk.
    destruct digits as [|c [|c' rest]]; [done| |cbn in Hk; lia].
    exists "0", c. split; [by destruct sg|]. split; [done|].
    cbn -[is_digit] in Hall. apply andb_prop in Hall as [Hc _].
    change (one_decimal_place
              ((if sg then "-" else "") +:+ "0" +:+ "." +:+ String c "") = true).
    destruct Hsign as [-> | ->]; apply (one_decimal_place_intro _ "0"); auto.
  - apply Nat.leb_gt in Hk.
    destruct (split_last digits Hne) as (a & c & Hd & Ha & Hc).
    rewrite Ha, Hc. exists a, c.
    assert (all_digits a = true /\ is_digit c = true) as [Hda Hdc].
    { rewrite Hd, all_digits_app in Hall. apply andb_prop in Hall as [? Hc'].
      cbn -[is_digit] in Hc'. by apply andb_prop in Hc' as [? _]. }
    assert (a <> "") as Hane.
    { intros ->. rewrite Hd, app_empty_l in Hk. cbn in Hk. lia. }
    split; [by destruct sg|]. split; [done|].
    destruct sg; by apply one_decimal_place_intro; auto.
Qed.

End FormatFacts.

(** ** LocationWeatherController *)

Section ControllerFacts.

Variable env : Environment.

Implicit Types (st : State) (lat lng : number).

(** The two lookups only talk to the network: they leave the component
    state alone and send one request each. *)
Lemma reverseGeocodeArea_state lat lng st :
  state_after (reverseGeocodeArea env lat lng) st = st.
Proof.
  unfold state_after, reverseGeocodeArea, bind, issue, await, throw, ret.
  destruct (nominatim env lat lng) as [res|e]; cbn; [|done].
  destruct (Response.ok res); cbn; [|done].
  destruct (Response.json res) as [[|address]|e]; done.
Qed.

Lemma fetchCurrentTempC_state lat lng st :
  state_after (fetchCurrentTempC env lat lng) st = st.
Proof.
  unfold state_after, fetchCurrentTempC, bind, issue, await, throw, ret.
  destruct (open_meteo env lat lng) as [res|e]; cbn; [|done].
  destruct (Response.ok res); cbn; [|done].
  destruct (Response.json res) as [data|e]; cbn; [|done].
  destruct (optional_get _ _) as [[]|]; done.
Qed.



(** What the success callback leaves behind, in terms of how the two
    lookups settle. *)
Lemma position_callback_state pos st :
  let lat := GeolocationPosition.latitude (GeolocationPosition.coords pos) in
  let lng := GeolocationPosition.longitude (GeolocationPosition.coords pos) in
  state_after (position_callback env pos) st =
  match Promise_all (weather_settles_first env)
          (outcome (reverseGeocodeArea env lat lng) st)
          (outcome (fetchCurrentTempC env lat lng) st) with
  | fulfilled (area, temp) =>
      {| isSupported := isSupported st; status := Status.success;
         error := error st; areaName := area; tempC := Some temp;
         updatedAt := Some (Date_now env) |}
  | rejected e =>
      {| isSupported := isSupported st; status := Status.error;
         error := Some (or_lit (Some (message e)) "Failed to load area/weather.");
         areaName := areaName st; tempC := tempC st;
         updatedAt := updatedAt st |}
  end.
Proof.
  intros lat lng.
  pose proof (reverseGeocodeArea_state lat lng st) as Ha.
  pose proof (fetchCurrentTempC_state lat lng st) as Ht.
  unfold state_after, outcome in *.
  unfold position_callback, try_catch, bind, async. fold lat lng.
  destruct (reverseGeocodeArea env lat lng st) as [[ra sa] oa].
  cbn in Ha. subst sa.
  destruct (fetchCurrentTempC env lat lng st) as [[rt s_t] ot].
  cbn in Ht. subst s_t. cbn.
  destruct ra as [area|ea], rt as [temp|et]; cbn; try done.
Qed.

Lemma getLocationAndWeather_state st :
  state_after (getLocationAndWeather env) st =
  {| isSupported := isSupported st; status := Status.requesting;
     error := None; areaName := "—"; tempC := None; updatedAt := None |}.
Proof.
  unfold state_after, getLocationAndWeather.
  by destruct (geolocation_in_navigator env).
Qed.

Lemma getLocationAndWeather_run st :
  geolocation_in_navigator env = true ->
  let begun := state_after (getLocationAndWeather env) st in
  getLocationAndWeather env st =
  (fulfilled tt, begun,
   [(begun, getCurrentPosition
              {| enableHighAccuracy := true; timeout := 12000;
                 maximumAge := 0 |})]).
Proof.
  intros Hgeo. unfold state_after, getLocationAndWeather. by rewrite Hgeo.
Qed.

Lemma cycle_with_position_state pos st :
  geolocation_in_navigator env = true ->
  state_after (cycle_with_position env pos) st =
  state_after (position_callback env pos)
    (state_after (getLocationAndWeather env) st).
Proof.
  intros Hgeo. unfold cycle_with_position, state_after, bind.
  rewrite (getLocationAndWeather_run st Hgeo).
  by destruct (position_callback env pos _) as [[? ?] ?].
Qed.


Lemma reverseGeocodeArea_not_ok lat lng res st :
  nominatim env lat lng = fulfilled res ->
  Response.ok res = false ->
  outcome (reverseGeocodeArea env lat lng) st =
  rejected {| message := "Area lookup failed ("
                         +:+ decimal (Response.status res) +:+ ")" |}.
Proof.
  intros Hres Hok. unfold outcome, reverseGeocodeArea, bind, issue, await.
  rewrite Hres. cbn. by rewrite Hok.
Qed.

Lemma fetchCurrentTempC_not_ok lat lng res st :
  open_meteo env lat lng = fulfilled res ->
  Response.ok res = false ->
  outcome (fetchCurrentTempC env lat lng) st =
  rejected {| message := "Weather fetch failed ("
                         +:+ decimal (Response.status res) +:+ ")" |}.
Proof.
  intros Hres Hok. unfold outcome, fetchCurrentTempC, bind, issue, await.
  rewrite Hres. cbn. by rewrite Hok.
Qed.

(** How [fetchCurrentTempC] settles once a 2xx answer has been parsed. *)
Lemma fetchCurrentTempC_parsed lat lng res data st :
  open_meteo env lat lng = fulfilled res ->
  Response.ok res = true ->
  Response.json res = fulfilled data ->
  outcome (fetchCurrentTempC env lat lng) st =
  match optional_get (optional_get (Some data) "current") "temperature_2m" with
  | Some (j_number x) => fulfilled x
  | _ => rejected {| message := "Weather data missing temperature." |}
  end.
Proof.
  intros Hres Hok Hdata. unfold outcome, fetchCurrentTempC, bind, issue, await.
  rewrite Hres. cbn. rewrite Hok. cbn. rewrite Hdata. cbn.
  by destruct (optional_get _ _) as [[]|].
Qed.

(** Whenever [fetchCurrentTempC] fulfils, its value is the number found
    at [current.temperature_2m] of a parsed 2xx answer. *)
Lemma fetchCurrentTempC_fulfilled lat lng x st :
  outcome (fetchCurrentTempC env lat lng) st = fulfilled x ->
  exists res data,
    open_meteo env lat lng = fulfilled res /\
    Response.ok res = true /\
    Response.json res = fulfilled data /\
    optional_get (optional_get (Some data) "current") "temperature_2m"
    = Some (j_number x).
Proof.
  unfold outcome, fetchCurrentTempC, bind, issue, await, throw, ret.
  destruct (open_meteo env lat lng) as [res|e]; cbn; [|done].
  destruct (Response.ok res) eqn:Hok; cbn; [|done].
  destruct (Response.json res) as [data|e] eqn:Hdata; cbn; [|done].
  destruct (optional_get _ _) as [[]|] eqn:Ht; cbn; try done.
  intros [= ->]. by exists res, data.
Qed.

Lemma reverseGeocodeArea_parsed lat lng res address st :
  nominatim env lat lng = fulfilled res ->
  Response.ok res = true ->
  Response.json res = fulfilled (body_with address) ->
  outcome (reverseGeocodeArea env lat lng) st =
  fulfilled (buildShortAreaName address).
Proof.
  intros Hres Hok Hdata. unfold outcome, reverseGeocodeArea, bind, issue, await.
  rewrite Hres. cbn. rewrite Hok. cbn. by rewrite Hdata.
Qed.

End ControllerFacts.

(** C2. Once the position is known, the callback ends in Success, with
    the resolved label, the reading and a non-null timestamp, exactly when
    both the area lookup and the weather lookup succeed; when either fails
    it ends in Error and stores no part of the result. *)
Theorem lookups_are_joined (env : Environment) (pos : GeolocationPosition.t)
    (st : State) :
  let lat := GeolocationPosition.latitude (GeolocationPosition.coords pos) in
  let lng := GeolocationPosition.longitude (GeolocationPosition.coords pos) in
  let area := outcome (reverseGeocodeArea env lat lng) st in
  let temp := outcome (fetchCurrentTempC env lat lng) st in
  let st' := state_after (position_callback env pos) st in
  match area, temp with
  | fulfilled label, fulfilled reading =>
      status st' = Status.success /\ areaName st' = label /\
      tempC st' = Some reading /\ updatedAt st' = Some (Date_now env)
  | _, _ =>
      status st' = Status.error /\ is_Some (error st') /\
      areaName st' = areaName st /\ tempC st' = tempC st /\
      updatedAt st' = updatedAt st
  end /\
  (status st' = Status.success <->
   exists label reading, area = fulfilled label /\ temp = fulfilled reading) /\
  (geolocation_in_navigator env = true ->
   let begun := state_after (getLocationAndWeather env) st in
   let ended := state_after (cycle_with_position env pos) st in
   match outcome (reverseGeocodeArea env lat lng) begun,
         outcome (fetchCurrentTempC env lat lng) begun with
   | fulfilled label, fulfilled reading =>
       status ended = Status.success /\ areaName ended = label /\
       tempC ended = Some reading /\ updatedAt ended = Some (Date_now env)
   | _, _ =>
       status ended = Status.error /\ is_Some (error ended) /\
       areaName ended = "—" /\ tempC ended = None /\ updatedAt ended = None
   end).
Proof.
  intros lat lng area temp st'.
  pose proof (position_callback_state env pos st) as Hst. cbn zeta in Hst.
  fold lat lng area temp st' in Hst.
  repeat split.
  - rewrite Hst. destruct area, temp; cbn; try destruct (weather_settles_first env);
      repeat split; eauto.
  - rewrite Hst. destruct area, temp; cbn; try destruct (weather_settles_first env);
      try discriminate; eauto.
  - intros (label & reading & -> & ->). by rewrite Hst.
  - intros Hgeo begun ended. subst ended.
    rewrite cycle_with_position_state by done. fold begun.
    rewrite (position_callback_state env pos begun). cbn zeta. fold lat lng.
    assert (areaName begun = "—" /\ tempC begun = None /\ updatedAt begun = None)
      as (Ha & Ht & Hu) by (subst begun; by rewrite getLocationAndWeather_state).
    destruct (outcome (reverseGeocodeArea env lat lng) begun),
             (outcome (fetchCurrentTempC env lat lng) begun); cbn;
      try destruct (weather_settles_first env); repeat split; eauto.
Qed.

Lemma lookups_are_joined_witness :
  let st := state_after (cycle_with_position Sample.area_down Sample.paris)
              Sample.earlier_success in
  status st = Status.error /\ areaName st = "—" /\ tempC st = None.
Proof.
  pose proof (lookups_are_joined Sample.area_down Sample.paris
                Sample.earlier_success) as H.
  cbn zeta in H. destruct H as (_ & _ & H).
  specialize (H eq_refl). vm_compute in H |- *.
  destruct H as (? & ? & ? & ? & ?). done.
Defined.



(** C7. Every call of [getLocationAndWeather], whatever the state before
    it, an Error state included, sets the status to Requesting and clears
    the error message, the area label, the temperature and the timestamp;
    with that state in place it asks for the current position with the
    high-accuracy hint, a timeout of 12000 ms and a maximum age of zero. *)
Theorem trigger_resets_then_requests_position (env : Environment) (st : State) :
  let begun := state_after (getLocationAndWeather env) st in
  status begun = Status.requesting /\
  error begun = None /\
  areaName begun = "—" /\
  tempC begun = None /\
  updatedAt begun = None /\
  isSupported begun = isSupported st /\
  (geolocation_in_navigator env = true ->
   outcome (getLocationAndWeather env) st = fulfilled tt /\
   issued (getLocationAndWeather env) st =
   [(begun, getCurrentPosition
              {| enableHighAccuracy := true; timeout := 12000;
                 maximumAge := 0 |})]).
Proof.
  intros begun. subst begun. rewrite getLocationAndWeather_state. cbn.
  do 6 (split; [reflexivity|]).
  intros Hgeo. unfold outcome, issued.
  rewrite (getLocationAndWeather_run env st Hgeo).
  by rewrite getLocationAndWeather_state.
Qed.

Lemma trigger_resets_then_requests_position_witness :
  let env := Sample.online (js_object Sample.le_marais) (j_number Sample.mild) in
  let begun := state_after (getLocationAndWeather env) Sample.earlier_error in
  status Sample.earlier_error = Status.error /\
  status begun = Status.requesting /\
  error begun = None /\
  map snd (issued (getLocationAndWeather env) Sample.earlier_error) =
  [getCurrentPosition
     {| enableHighAccuracy := true; timeout := 12000; maximumAge := 0 |}].
Proof.
  intros env begun.
  destruct (trigger_resets_then_requests_position env Sample.earlier_error)
    as (Hs & He & _ & _ & _ & _ & Hreq).
  destruct (Hreq eq_refl) as [_ ->].
  repeat split; try reflexivity; assumption.
Defined.

(** C8. Failures carry distinct messages: a response outside 200-299 gives
    a message that names the lookup, area or weather, and carries the
    numeric status code, and this is the message the Error state shows when
    that lookup is the one that fails first; a failure to acquire the
    position moves to Error with the provider's text followed by its
    numeric code. *)
Theorem failures_name_their_source (env : Environment) :
  (forall lat lng res st,
      nominatim env lat lng = fulfilled res ->
      Response.ok res = false ->
      outcome (reverseGeocodeArea env lat lng) st =
      rejected {| message := "Area lookup failed ("
                             +:+ decimal (Response.status res) +:+ ")" |}) /\
  (forall lat lng res st,
      open_meteo env lat lng = fulfilled res ->
      Response.ok res = false ->
      outcome (fetchCurrentTempC env lat lng) st =
      rejected {| message := "Weather fetch failed ("
                             +:+ decimal (Response.status res) +:+ ")" |}) /\
  (forall pos res st,
      let lat := GeolocationPosition.latitude (GeolocationPosition.coords pos) in
      let lng := GeolocationPosition.longitude (GeolocationPosition.coords pos) in
      let st' := state_after (position_callback env pos) st in
      nominatim env lat lng = fulfilled res ->
      Response.ok res = false ->
      weather_settles_first env = false \/
        (exists t, outcome (fetchCurrentTempC env lat lng) st = fulfilled t) ->
      status st' = Status.error /\
      error st' = Some ("Area lookup failed ("
                        +:+ decimal (Response.status res) +:+ ")")) /\
  (forall pos res st,
      let lat := GeolocationPosition.latitude (GeolocationPosition.coords pos) in
      let lng := GeolocationPosition.longitude (GeolocationPosition.coords pos) in
      let st' := state_after (position_callback env pos) st in
      open_meteo env lat lng = fulfilled res ->
      Response.ok res = false ->
      weather_settles_first env = true \/
        (exists a, outcome (reverseGeocodeArea env lat lng) st = fulfilled a) ->
      status st' = Status.error /\
      error st' = Some ("Weather fetch failed ("
                        +:+ decimal (Response.status res) +:+ ")")) /\
  (forall err st,
      let st' := state_after (error_callback err) st in
      status st' = Status.error /\
      error st' = Some (GeolocationPositionError.message err +:+ " (code "
                        +:+ decimal (GeolocationPositionError.code err) +:+ ")")) /\
  (forall a b : string,
      "Area lookup failed (" +:+ a <> "Weather fetch failed (" +:+ b).
Proof.
  split; [|split; [|split; [|split; [|split]]]].
  - intros. by apply reverseGeocodeArea_not_ok.
  - intros. by apply fetchCurrentTempC_not_ok.
  - intros pos res st lat lng st' Hres Hok Hfirst. subst st'.
    rewrite position_callback_state. cbn zeta. fold lat lng.
    rewrite (reverseGeocodeArea_not_ok env lat lng res st Hres Hok).
    destruct Hfirst as [Hfirst | [t Ht]].
    + rewrite Hfirst.
      destruct (outcome (fetchCurrentTempC env lat lng) st); cbn; done.
    + rewrite Ht. cbn. done.
  - intros pos res st lat lng st' Hres Hok Hfirst. subst st'.
    rewrite position_callback_state. cbn zeta. fold lat lng.
    rewrite (fetchCurrentTempC_not_ok env lat lng res st Hres Hok).
    destruct Hfirst as [Hfirst | [a Ha]].
    + rewrite Hfirst.
      destruct (outcome (reverseGeocodeArea env lat lng) st); cbn; done.
    + rewrite Ha. cbn. done.
  - intros err st. cbn. done.
  - intros a b H. cbv in H. discriminate H.
Qed.

Lemma failures_name_their_source_witness :
  let st := state_after (position_callback Sample.area_down Sample.paris)
              initial in
  status st = Status.error /\ error st = Some "Area lookup failed (500)".
Proof.
  destruct (failures_name_their_source Sample.area_down) as (_ & _ & H & _).
  apply (H Sample.paris
           {| Response.status := 500%N; Response.json := fulfilled body_null |}
           initial).
  - reflexivity.
  - reflexivity.
  - right. eexists. vm_compute. reflexivity.
Defined.

(** C10. [buildShortAreaName] is also defined on an absent address: for
    [undefined] and for [null] it returns "Unknown area", so a 2xx
    reverse-geocoding answer whose body has no [address] member, or a
    [null] one, still resolves to that label. *)
Theorem absent_address_is_unknown_area :
  buildShortAreaName js_undefined = "Unknown area" /\
  buildShortAreaName js_null = "Unknown area" /\
  (forall env lat lng res address st,
      nominatim env lat lng = fulfilled res ->
      Response.ok res = true ->
      Response.json res = fulfilled (body_with address) ->
      address = js_undefined \/ address = js_null ->
      outcome (reverseGeocodeArea env lat lng) st = fulfilled "Unknown area").
Proof.
  repeat split.
  intros env lat lng res address st Hres Hok Hdata Habsent.
  rewrite (reverseGeocodeArea_parsed env lat lng res address st Hres Hok Hdata).
  by destruct Habsent as [-> | ->].
Qed.

Lemma absent_address_is_unknown_area_witness :
  outcome (reverseGeocodeArea (Sample.online js_undefined (j_number Sample.mild))
             (GeolocationPosition.latitude (GeolocationPosition.coords Sample.paris))
             (GeolocationPosition.longitude (GeolocationPosition.coords Sample.paris)))
    initial
  = fulfilled "Unknown area".
Proof.
  destruct absent_address_is_unknown_area as (_ & _ & H).
  apply (H _ _ _
           {| Response.status := 200%N;
              Response.json := fulfilled (body_with js_undefined) |}
           js_undefined).
  - reflexivity.
  - reflexivity.
  - reflexivity.
  - left. reflexivity.
Defined.

(** C6, as the code has it.  When a parsed 2xx weather answer has no
    number at [current.temperature_2m], the weather lookup fails with
    "Weather data missing temperature.", the callback ends in Error and no
    temperature is stored; the reading of every Success state is the very
    number found at [current.temperature_2m], a value of type number of
    which the code does not ask that it be finite. *)
Theorem reading_is_the_payload_number (env : Environment) :
  (forall lat lng res data st,
      open_meteo env lat lng = fulfilled res ->
      Response.ok res = true ->
      Response.json res = fulfilled data ->
      (forall x, optional_get (optional_get (Some data) "current") "temperature_2m"
                 <> Some (j_number x)) ->
      outcome (fetchCurrentTempC env lat lng) st =
      rejected {| message := "Weather data missing temperature." |}) /\
  (forall pos res data st,
      let lat := GeolocationPosition.latitude (GeolocationPosition.coords pos) in
      let lng := GeolocationPosition.longitude (GeolocationPosition.coords pos) in
      let st' := state_after (position_callback env pos) st in
      open_meteo env lat lng = fulfilled res ->
      Response.ok res = true ->
      Response.json res = fulfilled data ->
      (forall x, optional_get (optional_get (Some data) "current") "temperature_2m"
                 <> Some (j_number x)) ->
      status st' = Status.error /\ tempC st' = tempC st) /\
  (forall pos st,
      let lat := GeolocationPosition.latitude (GeolocationPosition.coords pos) in
      let lng := GeolocationPosition.longitude (GeolocationPosition.coords pos) in
      let st' := state_after (position_callback env pos) st in
      status st' = Status.success ->
      exists res data x,
        open_meteo env lat lng = fulfilled res /\
        Response.ok res = true /\
        Response.json res = fulfilled data /\
        optional_get (optional_get (Some data) "current") "temperature_2m"
        = Some (j_number x) /\
        tempC st' = Some x).
Proof.
  assert (forall lat lng res data st,
      open_meteo env lat lng = fulfilled res ->
      Response.ok res = true ->
      Response.json res = fulfilled data ->
      (forall x, optional_get (optional_get (Some data) "current") "temperature_2m"
                 <> Some (j_number x)) ->
      outcome (fetchCurrentTempC env lat lng) st =
      rejected {| message := "Weather data missing temperature." |}) as Hmissing.
  { intros lat lng res data st Hres Hok Hdata Hnot.
    rewrite (fetchCurrentTempC_parsed env lat lng res data st Hres Hok Hdata).
    destruct (optional_get _ _) as [[| |x| | |]|]; try reflexivity.
    by destruct (Hnot x). }
  split; [exact Hmissing|]. split.
  - intros pos res data st lat lng st' Hres Hok Hdata Hnot. subst st'.
    rewrite position_callback_state. cbn zeta. fold lat lng.
    rewrite (Hmissing lat lng res data st Hres Hok Hdata Hnot).
    destruct (outcome (reverseGeocodeArea env lat lng) st); cbn;
      try destruct (weather_settles_first env); done.
  - intros pos st lat lng st'. subst st'.
    rewrite position_callback_state. cbn zeta. fold lat lng.
    destruct (outcome (reverseGeocodeArea env lat lng) st) as [label|ea];
      destruct (outcome (fetchCurrentTempC env lat lng) st) as [x|et] eqn:Ht;
      cbn -[optional_get]; try (intros Hno; discriminate Hno).
    intros _.
    destruct (fetchCurrentTempC_fulfilled env lat lng x st Ht)
      as (res & data & ? & ? & ? & ?).
    by exists res, data, x.
Qed.

Lemma reading_is_the_payload_number_witness :
  let env := Sample.online (js_object Sample.le_marais) (j_string "21.5") in
  let st := state_after (position_callback env Sample.paris) initial in
  status st = Status.error /\ tempC st = None.
Proof.
  intros env st.
  destruct (reading_is_the_payload_number env) as (_ & H & _).
  apply (H Sample.paris
           {| Response.status := 200%N;
              Response.json :=
                fulfilled (Sample.weather_payload (j_string "21.5")) |}
           (Sample.weather_payload (j_string "21.5")) initial).
  - reflexivity.
  - reflexivity.
  - reflexivity.
  - intros x. vm_compute. discriminate.
Defined.

(** C6, as stated, fails on its last part: a weather answer whose
    temperature literal is out of range, such as [1e999], is parsed to
    [Infinity], which [typeof] reports as a number, and the cycle ends in
    Success with a reading that is not finite. *)
Lemma infinite_reading_reaches_success :
  let env := Sample.online (js_object Sample.le_marais) (j_number Infinity) in
  let st := state_after (cycle_with_position env Sample.paris) initial in
  status st = Status.success /\
  tempC st = Some Infinity /\
  ~ (exists t, tempC st = Some t /\ isFinite t = true).
Proof.
  vm_compute. repeat split; try reflexivity.
  intros (t & [= <-] & H). discriminate H.
Qed.

(** C9, as the code has it.  When the stored temperature is a number the
    display text is [tempC.toFixed(1)] followed by "°C"; that is a text
    with exactly one decimal place, the digits of the temperature rounded
    to tenths, when the number is finite and of magnitude below [10^21].
    When nothing is stored the text is "…" in the Requesting state and
    "—" in every other state. *)
Theorem tempText_cases (st : State) :
  match tempC st with
  | Some t =>
      tempText st = toFixed t 1 +:+ "°C" /\
      (has_fixed_notation t = true ->
       one_decimal_place (toFixed t 1) = true /\
       exists whole tenth,
         toFixed t 1 = minus_sign t +:+ whole +:+ "." +:+ String tenth "" /\
         whole +:+ String tenth "" =
           (if (String.length (decimal (tenths t)) <=? 1)%nat
            then "0" +:+ decimal (tenths t) else decimal (tenths t)))
  | None =>
      tempText st =
      match status st with
      | Status.requesting => "…"
      | _ => "—"
      end
  end.
Proof.
  unfold tempText. destruct (tempC st) as [t|].
  - split; [reflexivity|]. intros Hfix.
    destruct (toFixed_one_decimal t Hfix) as (whole & tenth & H1 & H2 & H3).
    split; [exact H3|]. by exists whole, tenth.
  - by destruct (status st).
Qed.

Lemma tempText_cases_witness :
  tempText Sample.earlier_success = "21.5°C" /\
  one_decimal_place (toFixed Sample.mild 1) = true.
Proof.
  pose proof (tempText_cases Sample.earlier_success) as H.
  cbn [tempC Sample.earlier_success] in H. destruct H as [Htext Hshape].
  destruct (Hshape eq_refl) as [Hone _].
  split; [rewrite Htext; vm_compute; reflexivity | exact Hone].
Defined.

(** A finite temperature of [10^21] is out of fixed notation as well. *)
Example tempText_exponent_form :
  tempText {| isSupported := true; status := Status.success; error := None;
              areaName := "Le Marais, Paris";
              tempC := Some (S754_finite false (5 ^ 21 * 2 ^ 4) 17);
              updatedAt := Some 0%Z |}
  = "1e+21°C".
Proof. vm_compute. reflexivity. Qed.

(** C9, as stated, fails: a stored temperature of [Infinity] is numeric,
    and the display text is then "Infinity°C", which has no decimal
    place. *)
Lemma infinite_temperature_has_no_decimal_place :
  let env := Sample.online (js_object Sample.le_marais) (j_number Infinity) in
  let st := state_after (cycle_with_position env Sample.paris) initial in
  tempC st = Some Infinity /\
  tempText st = "Infinity°C" /\
  ~ (exists body, tempText st = body +:+ "°C" /\ one_decimal_place body = true).
Proof.
  intros env st.
  assert (tempText st = "Infinity" +:+ "°C") as Htext by (vm_compute; reflexivity).
  split; [vm_compute; reflexivity|]. split; [exact Htext|].
  intros (body & Hbody & Hone). rewrite Htext in Hbody.
  apply app_cancel_r in Hbody. subst body. discriminate Hone.
Qed.

(** * Further properties of the code *)

(** ** [buildShortAreaName] *)

Section ResolverExtras.

Implicit Types (a b : AddressAttributes).

Lemma first_non_empty_ext fields a b :
  (forall f, f ∈ fields -> non_empty (a !! f) = non_empty (b !! f)) ->
  first_non_empty fields a = first_non_empty fields b.
Proof.
  induction fields as [|f fields IH]; intros Hsame; [done|].
  rewrite !first_non_empty_cons, (Hsame f) by apply list_elem_of_here.
  rewrite IH; [done|]. intros g Hg. apply Hsame. by apply list_elem_of_further.
Qed.

Lemma cityLike_order_in_local_order f : f ∈ cityLike_order -> f ∈ local_order.
Proof.
  unfold cityLike_order, local_order. rewrite !elem_of_cons.
  intros H. repeat destruct H as [-> | H]; auto 12.
Qed.

Lemma label_ext a b :
  (forall f, f ∈ local_order -> non_empty (a !! f) = non_empty (b !! f)) ->
  buildShortAreaName (js_object a) = buildShortAreaName (js_object b).
Proof.
  intros Hsame. rewrite !buildShortAreaName_object. unfold resolveAreaLabel.
  rewrite (first_non_empty_ext local_order a b Hsame).
  rewrite (first_non_empty_ext cityLike_order a b); [done|].
  intros f Hf. apply Hsame. by apply cityLike_order_in_local_order.
Qed.

Lemma first_non_empty_none fields a :
  first_non_empty fields a = None <->
  forall f, f ∈ fields -> non_empty (a !! f) = None.
Proof.
  induction fields as [|f fields IH].
  - split; [|done]. intros _ f Hf. by apply elem_of_nil in Hf.
  - rewrite first_non_empty_cons. split.
    + intros H g Hg. destruct (non_empty (a !! f)) eqn:Hf; [done|].
      apply elem_of_cons in Hg as [-> | Hg]; [done|]. by apply IH.
    + intros H. rewrite (H f) by apply list_elem_of_here.
      apply IH. intros g Hg. apply H. by apply list_elem_of_further.
Qed.

Lemma prefix_app (l t : string) : String.prefix l (l +:+ t) = true.
Proof.
  induction l as [|c l IH]; [rewrite app_empty_l; by destruct t|].
  rewrite app_cons. cbn [String.prefix].
  destruct (ascii_dec c c); [exact IH | congruence].
Qed.

Lemma prefix_self (l : string) : String.prefix l l = true.
Proof.
  induction l as [|c l IH]; [reflexivity|]. cbn [String.prefix].
  destruct (ascii_dec c c); [exact IH | congruence].
Qed.

End ResolverExtras.

(** X1. The label is a function of the ten locality fields alone: two
    address objects that agree on them get the same label, whatever else
    (road, postcode, country, ...) they hold. *)
Theorem label_reads_only_locality_fields (a b : AddressAttributes) :
  (forall f, f ∈ local_order -> a !! f = b !! f) ->
  buildShortAreaName (js_object a) = buildShortAreaName (js_object b).
Proof.
  intros Hsame. apply label_ext. intros f Hf. by rewrite (Hsame f Hf).
Qed.

Lemma label_reads_only_locality_fields_witness :
  buildShortAreaName
    (js_object (<["country" := "France"]> (<["road" := "Rue de Rivoli"]>
                                              Sample.le_marais)))
  = buildShortAreaName (js_object Sample.le_marais).
Proof.
  apply label_reads_only_locality_fields.
  intros f Hf. rewrite !lookup_insert_ne; [done| |].
  - intros <-. vm_compute in Hf. by repeat (apply elem_of_cons in Hf as [Hf|Hf]; [discriminate|]); apply elem_of_nil in Hf.
  - intros <-. by repeat (apply elem_of_cons in Hf as [Hf|Hf]; [discriminate|]); apply elem_of_nil in Hf.
Defined.

(** X2. A field that holds the empty string counts as a field that is not
    there: setting any field to "" gives the label of the address without
    that field. *)
Theorem empty_field_is_absent_field (a : AddressAttributes) (f : string) :
  buildShortAreaName (js_object (<[f := ""]> a))
  = buildShortAreaName (js_object (delete f a)).
Proof.
  apply label_ext. intros g _. destruct (decide (f = g)) as [-> | Hne].
  - by rewrite lookup_insert_eq, lookup_delete_eq.
  - by rewrite lookup_insert_ne, lookup_delete_ne.
Qed.

(** X3. Whenever [cityLike] is non-empty, [local] is non-empty as well:
    in the final [local || cityLike || "Unknown area"] the middle operand
    is never the one returned. *)
Theorem cityLike_never_stands_alone (a : AddressAttributes) :
  truthy (cityLike a) = true -> truthy (local a) = true.
Proof.
  intros Hc.
  assert (exists c, first_non_empty cityLike_order a = Some c) as [c Hc'].
  { rewrite <- cityLike_first_non_empty. unfold non_empty. rewrite Hc.
    destruct (cityLike a) as [c|]; [by exists c | discriminate]. }
  destruct (cityLike_implies_local a c Hc') as [l Hl].
  rewrite <- local_first_non_empty in Hl. unfold non_empty in Hl.
  by destruct (truthy (local a)).
Qed.

Lemma cityLike_never_stands_alone_witness :
  truthy (local {[ "state" := "Bavaria" ]}) = true.
Proof.
  apply (cityLike_never_stands_alone {[ "state" := "Bavaria" ]}).
  vm_compute. reflexivity.
Defined.

(** X4. The label is the sentinel "Unknown area" when none of the ten
    fields holds a non-empty string; as soon as one does, the label begins
    with the first such value in the [local] order. *)
Theorem sentinel_or_local_first (a : AddressAttributes) :
  ((forall f, f ∈ local_order -> non_empty (a !! f) = None) ->
   buildShortAreaName (js_object a) = "Unknown area") /\
  (forall f s, f ∈ local_order -> non_empty (a !! f) = Some s ->
     exists l, first_non_empty local_order a = Some l /\
               String.prefix l (buildShortAreaName (js_object a)) = true).
Proof.
  rewrite buildShortAreaName_object. unfold resolveAreaLabel. split.
  - intros Hnone.
    assert (first_non_empty local_order a = None) as ->
      by by apply first_non_empty_none.
    assert (first_non_empty cityLike_order a = None) as ->; [|done].
    apply first_non_empty_none. intros f Hf. apply Hnone.
    by apply cityLike_order_in_local_order.
  - intros f s Hf Hs.
    destruct (first_non_empty local_order a) as [l|] eqn:Hl.
    + exists l. split; [done|].
      destruct (first_non_empty cityLike_order a) as [c|].
      * destruct (String.eqb l c); [apply prefix_self | apply prefix_app].
      * apply prefix_self.
    + rewrite first_non_empty_none in Hl. by rewrite (Hl f Hf) in Hs.
Qed.

Lemma sentinel_or_local_first_witness :
  exists l, first_non_empty local_order Sample.le_marais = Some l /\
            String.prefix l (buildShortAreaName (js_object Sample.le_marais))
            = true.
Proof.
  destruct (sentinel_or_local_first Sample.le_marais) as [_ H].
  apply (H "neighbourhood" "Le Marais").
  - apply list_elem_of_here.
  - vm_compute. reflexivity.
Defined.

(** X5. The two priority orders disagree on towns and cities: with none of
    the five finer fields (neighbourhood, quarter, suburb, city_district,
    borough) in use, a town and a different city give "town, city". *)
Theorem town_precedes_city (a : AddressAttributes) (t c : string) :
  (forall f, f ∈ ["neighbourhood"; "quarter"; "suburb"; "city_district";
                  "borough"] -> non_empty (a !! f) = None) ->
  a !! "town" = Some t -> t <> "" ->
  a !! "city" = Some c -> c <> "" ->
  t <> c ->
  buildShortAreaName (js_object a) = t +:+ ", " +:+ c.
Proof.
  intros Hfiner Ht Htne Hc Hcne Hdiff.
  rewrite buildShortAreaName_object.
  unfold resolveAreaLabel, local_order, cityLike_order.
  rewrite !first_non_empty_cons.
  rewrite !Hfiner by (rewrite !elem_of_cons; auto 10).
  rewrite Ht, Hc. unfold non_empty, truthy.
  destruct (String.eqb_spec t ""); [done|].
  destruct (String.eqb_spec c ""); [done|]. cbn.
  by destruct (String.eqb_spec t c).
Qed.

Lemma town_precedes_city_witness :
  buildShortAreaName (js_object {[ "town" := "Y"; "city" := "Z" ]}) = "Y, Z".
Proof.
  apply (town_precedes_city {[ "town" := "Y"; "city" := "Z" ]} "Y" "Z");
    try (vm_compute; reflexivity); try discriminate.
  intros f Hf. rewrite !elem_of_cons in Hf.
  repeat destruct Hf as [-> | Hf]; try (vm_compute; reflexivity).
  by apply elem_of_nil in Hf.
Defined.

(** ** The lookups and the callbacks *)

Section ControllerExtras.

Variable env : Environment.

Implicit Types (st : State) (lat lng : number).

Lemma reverseGeocodeArea_issued lat lng st :
  issued (reverseGeocodeArea env lat lng) st =
  [(st, fetch "https://nominatim.openstreetmap.org/reverse?"
          [("format", literal "jsonv2"); ("lat", String_of lat);
           ("lon", String_of lng); ("zoom", literal "14");
           ("addressdetails", literal "1")]
          [("Accept", "application/json")])].
Proof.
  unfold issued, reverseGeocodeArea, bind, issue, await, throw, ret.
  destruct (nominatim env lat lng) as [res|e]; cbn; [|done].
  destruct (Response.ok res); cbn; [|done].
  destruct (Response.json res) as [[|address]|e]; done.
Qed.

Lemma fetchCurrentTempC_issued lat lng st :
  issued (fetchCurrentTempC env lat lng) st =
  [(st, fetch "https://api.open-meteo.com/v1/forecast?"
          [("latitude", String_of lat); ("longitude", String_of lng);
           ("current", literal "temperature_2m"); ("timezone", literal "auto")]
          [("Accept", "application/json")])].
Proof.
  unfold issued, fetchCurrentTempC, bind, issue, await, throw, ret.
  destruct (open_meteo env lat lng) as [res|e]; cbn; [|done].
  destruct (Response.ok res); cbn; [|done].
  destruct (Response.json res) as [data|e]; cbn; [|done].
  destruct (optional_get _ _) as [[]|]; done.
Qed.

(** The message the Error state shows for a rejection. *)
Lemma shown_message_non_empty (e : Js.Error) :
  or_lit (Some (message e)) "Failed to load area/weather." <> "".
Proof. cbn. by destruct (String.eqb_spec (message e) ""). Qed.

End ControllerExtras.

Lemma position_callback_issued (env : Environment)
    (pos : GeolocationPosition.t) (st : State) :
  let lat := GeolocationPosition.latitude (GeolocationPosition.coords pos) in
  let lng := GeolocationPosition.longitude (GeolocationPosition.coords pos) in
  issued (position_callback env pos) st =
  [(st, fetch "https://nominatim.openstreetmap.org/reverse?"
          [("format", literal "jsonv2"); ("lat", String_of lat);
           ("lon", String_of lng); ("zoom", literal "14");
           ("addressdetails", literal "1")]
          [("Accept", "application/json")]);
   (st, fetch "https://api.open-meteo.com/v1/forecast?"
          [("latitude", String_of lat); ("longitude", String_of lng);
           ("current", literal "temperature_2m"); ("timezone", literal "auto")]
          [("Accept", "application/json")])].
Proof.
  intros lat lng.
  pose proof (reverseGeocodeArea_state env lat lng st) as Ha.
  pose proof (fetchCurrentTempC_state env lat lng st) as Ht.
  pose proof (reverseGeocodeArea_issued env lat lng st) as Hia.
  pose proof (fetchCurrentTempC_issued env lat lng st) as Hit.
  unfold state_after, issued in *.
  unfold position_callback, try_catch, bind, async. fold lat lng.
  destruct (reverseGeocodeArea env lat lng st) as [[ra sa] oa].
  cbn in Ha, Hia. subst sa oa.
  destruct (fetchCurrentTempC env lat lng st) as [[rt s_t] ot].
  cbn in Ht, Hit. subst s_t ot. cbn.
  destruct ra as [area|ea], rt as [temp|et]; cbn; done.
Qed.

(** X6. Whatever the services answer, the success callback sends exactly
    two requests, first the one to Nominatim, then the one to Open-Meteo,
    both with the coordinates of the position and an [Accept] header of
    [application/json]: the weather request goes out even when the area
    lookup fails, and the position is not asked for again. *)
Theorem position_callback_sends_both_requests (env : Environment)
    (pos : GeolocationPosition.t) (st : State) :
  let lat := GeolocationPosition.latitude (GeolocationPosition.coords pos) in
  let lng := GeolocationPosition.longitude (GeolocationPosition.coords pos) in
  issued (position_callback env pos) st =
  [(st, fetch "https://nominatim.openstreetmap.org/reverse?"
          [("format", literal "jsonv2"); ("lat", String_of lat);
           ("lon", String_of lng); ("zoom", literal "14");
           ("addressdetails", literal "1")]
          [("Accept", "application/json")]);
   (st, fetch "https://api.open-meteo.com/v1/forecast?"
          [("latitude", String_of lat); ("longitude", String_of lng);
           ("current", literal "temperature_2m"); ("timezone", literal "auto")]
          [("Accept", "application/json")])].
Proof. apply position_callback_issued. Qed.

(** X7. An Error state always has a text to show: after a failed success
    callback, after the error callback and after the mount effect in a
    browser without geolocation, [error] holds a non-empty string. *)
Theorem error_text_is_never_empty (env : Environment) :
  (forall pos st,
      let st' := state_after (position_callback env pos) st in
      status st' = Status.error ->
      exists m, error st' = Some m /\ m <> "") /\
  (forall err st,
      let st' := state_after (error_callback err) st in
      status st' = Status.error /\ exists m, error st' = Some m /\ m <> "") /\
  (forall st,
      let st' := state_after (mount_effect env) st in
      geolocation_in_navigator env = false ->
      status st' = Status.error /\ exists m, error st' = Some m /\ m <> "").
Proof.
  split; [|split].
  - intros pos st st'. subst st'. rewrite position_callback_state. cbn zeta.
    destruct (Promise_all _ _ _) as [[area temp]|e]; cbn; [discriminate|].
    intros _. eexists. split; [reflexivity|]. apply shown_message_non_empty.
  - intros err st. cbn. split; [done|]. eexists. split; [reflexivity|].
    intros H. apply (f_equal String.length) in H.
    rewrite !app_length in H. cbn in H. lia.
  - intros st st' Hgeo. subst st'. unfold state_after, mount_effect.
    rewrite Hgeo. cbn. split; [done|]. eexists. split; [reflexivity|done].
Qed.

Lemma error_text_is_never_empty_witness :
  let st := state_after (position_callback Sample.weather_down Sample.paris)
              initial in
  exists m, error st = Some m /\ m <> "".
Proof.
  destruct (error_text_is_never_empty Sample.weather_down) as (H & _ & _).
  apply (H Sample.paris initial). vm_compute. reflexivity.
Defined.

(** X8. The lookups do not wrap what the platform throws: when [fetch]
    rejects, or the answer is 2xx and [res.json()] rejects, the lookup
    rejects with that very exception. *)
Theorem platform_exceptions_pass_through (env : Environment)
    (lat lng : number) (st : State) (e : Js.Error) :
  (nominatim env lat lng = rejected e ->
   outcome (reverseGeocodeArea env lat lng) st = rejected e) /\
  (forall res, nominatim env lat lng = fulfilled res ->
     Response.ok res = true -> Response.json res = rejected e ->
     outcome (reverseGeocodeArea env lat lng) st = rejected e) /\
  (open_meteo env lat lng = rejected e ->
   outcome (fetchCurrentTempC env lat lng) st = rejected e) /\
  (forall res, open_meteo env lat lng = fulfilled res ->
     Response.ok res = true -> Response.json res = rejected e ->
     outcome (fetchCurrentTempC env lat lng) st = rejected e).
Proof.
  unfold outcome, reverseGeocodeArea, fetchCurrentTempC, bind, issue, await.
  repeat split.
  - intros ->. done.
  - intros res -> Hok Hjson. cbn. rewrite Hok. cbn. by rewrite Hjson.
  - intros ->. done.
  - intros res -> Hok Hjson. cbn. rewrite Hok. cbn. by rewrite Hjson.
Qed.

Lemma platform_exceptions_pass_through_witness :
  let offline := {| message := "Failed to fetch" |} in
  let env := {|
    geolocation_in_navigator := true;
    nominatim := fun _ _ => rejected offline;
    open_meteo := fun _ _ => rejected offline;
    weather_settles_first := false;
    Date_now := 1700000000000;
    cannot_read := fun property => property |} in
  outcome (reverseGeocodeArea env Sample.mild Sample.mild) initial
  = rejected offline.
Proof.
  intros offline env.
  destruct (platform_exceptions_pass_through env Sample.mild Sample.mild
              initial offline) as (H & _).
  apply H. reflexivity.
Defined.

(** X9. The Error state shows the message of the lookup that fails first,
    and the text "Failed to load area/weather." when that message is
    empty: the area lookup's when the weather lookup succeeds or settles
    later, the weather lookup's when the area lookup succeeds or settles
    later. *)
Theorem first_failure_is_shown (env : Environment)
    (pos : GeolocationPosition.t) (st : State) (e : Js.Error) :
  let lat := GeolocationPosition.latitude (GeolocationPosition.coords pos) in
  let lng := GeolocationPosition.longitude (GeolocationPosition.coords pos) in
  let st' := state_after (position_callback env pos) st in
  let shown :=
    if String.eqb (message e) "" then "Failed to load area/weather."
    else message e in
  (outcome (reverseGeocodeArea env lat lng) st = rejected e ->
   weather_settles_first env = false \/
     (exists t, outcome (fetchCurrentTempC env lat lng) st = fulfilled t) ->
   status st' = Status.error /\ error st' = Some shown) /\
  (outcome (fetchCurrentTempC env lat lng) st = rejected e ->
   weather_settles_first env = true \/
     (exists a, outcome (reverseGeocodeArea env lat lng) st = fulfilled a) ->
   status st' = Status.error /\ error st' = Some shown).
Proof.
  intros lat lng st' shown. subst st' shown.
  rewrite position_callback_state. cbn zeta. fold lat lng. split.
  - intros -> [Hfirst | [t ->]]; [rewrite Hfirst|]; cbn;
      try destruct (outcome (fetchCurrentTempC env lat lng) st); done.
  - intros -> [Hfirst | [a ->]]; [rewrite Hfirst|]; cbn;
      try destruct (outcome (reverseGeocodeArea env lat lng) st); done.
Qed.

Lemma first_failure_is_shown_witness :
  let st := state_after (position_callback Sample.weather_down Sample.paris)
              initial in
  status st = Status.error /\ error st = Some "Weather fetch failed (503)".
Proof.
  destruct (first_failure_is_shown Sample.weather_down Sample.paris initial
              {| message := "Weather fetch failed (503)" |}) as [_ H].
  apply H.
  - vm_compute. reflexivity.
  - right. eexists. vm_compute. reflexivity.
Defined.

(** X10. A 2xx answer whose body is JSON [null] fails differently in the
    two lookups: [data.address] throws, so the area lookup rejects with
    the engine's [TypeError]; [data?.current?.temperature_2m] does not, so
    the weather lookup rejects with "Weather data missing temperature.". *)
Theorem null_body_fails_both_ways (env : Environment) (lat lng : number)
    (st : State) :
  (forall res, nominatim env lat lng = fulfilled res ->
     Response.ok res = true -> Response.json res = fulfilled body_null ->
     outcome (reverseGeocodeArea env lat lng) st =
     rejected {| message := cannot_read env "address" |}) /\
  (forall res, open_meteo env lat lng = fulfilled res ->
     Response.ok res = true -> Response.json res = fulfilled j_null ->
     outcome (fetchCurrentTempC env lat lng) st =
     rejected {| message := "Weather data missing temperature." |}).
Proof.
  unfold outcome, reverseGeocodeArea, fetchCurrentTempC, bind, issue, await.
  split; intros res -> Hok Hjson; cbn; rewrite Hok; cbn; by rewrite Hjson.
Qed.

Lemma null_body_fails_both_ways_witness :
  let env := {|
    geolocation_in_navigator := true;
    nominatim := fun _ _ => Sample.answers 200 body_null;
    open_meteo := fun _ _ => Sample.answers 200 j_null;
    weather_settles_first := false;
    Date_now := 1700000000000;
    cannot_read := fun property =>
      "Cannot read properties of null (reading '" +:+ property +:+ "')" |} in
  outcome (fetchCurrentTempC env Sample.mild Sample.mild) initial
  = rejected {| message := "Weather data missing temperature." |}.
Proof.
  intros env.
  destruct (null_body_fails_both_ways env Sample.mild Sample.mild initial)
    as [_ H].
  by apply (H {| Response.status := 200%N; Response.json := fulfilled j_null |}).
Defined.

(** X11. Every number is a reading, zero included: when a parsed 2xx
    answer has the number [x] at [current.temperature_2m] the weather
    lookup fulfils with [x] itself, and if the area lookup succeeds too
    the callback ends in Success with [x] stored. *)
Theorem every_number_is_a_reading (env : Environment)
    (pos : GeolocationPosition.t) (st : State) (res : Response.t json)
    (data : json) (x : number) :
  let lat := GeolocationPosition.latitude (GeolocationPosition.coords pos) in
  let lng := GeolocationPosition.longitude (GeolocationPosition.coords pos) in
  let st' := state_after (position_callback env pos) st in
  open_meteo env lat lng = fulfilled res ->
  Response.ok res = true ->
  Response.json res = fulfilled data ->
  optional_get (optional_get (Some data) "current") "temperature_2m"
  = Some (j_number x) ->
  outcome (fetchCurrentTempC env lat lng) st = fulfilled x /\
  (forall label,
      outcome (reverseGeocodeArea env lat lng) st = fulfilled label ->
      status st' = Status.success /\ tempC st' = Some x).
Proof.
  intros lat lng st' Hres Hok Hjson Hx.
  assert (outcome (fetchCurrentTempC env lat lng) st = fulfilled x) as Hout.
  { rewrite (fetchCurrentTempC_parsed env lat lng res data st Hres Hok Hjson).
    by rewrite Hx. }
  split; [exact Hout|]. intros label Hlabel. subst st'.
  rewrite position_callback_state. cbn zeta. fold lat lng.
  by rewrite Hlabel, Hout.
Qed.

Lemma every_number_is_a_reading_witness :
  let env := Sample.online (js_object Sample.le_marais)
               (j_number (S754_zero false)) in
  let st := state_after (position_callback env Sample.paris) initial in
  status st = Status.success /\ tempC st = Some (S754_zero false) /\
  tempText st = "0.0°C".
Proof.
  intros env st.
  destruct (every_number_is_a_reading env Sample.paris initial
              {| Response.status := 200%N;
                 Response.json :=
                   fulfilled (Sample.weather_payload (j_number (S754_zero false))) |}
              (Sample.weather_payload (j_number (S754_zero false)))
              (S754_zero false)) as [_ H]; try reflexivity.
  destruct (H "Le Marais, Paris") as [Hs Ht]; [vm_compute; reflexivity|].
  split; [exact Hs|]. split; [exact Ht|]. vm_compute. reflexivity.
Defined.

(** X12. Only the mount effect writes the capability flag: the trigger
    and both callbacks leave [isSupported] as it was, and the mount effect
    clears it exactly when the browser has no geolocation. *)
Theorem capability_flag_is_set_once (env : Environment) (st : State) :
  isSupported (state_after (getLocationAndWeather env) st) = isSupported st /\
  (forall pos,
      isSupported (state_after (position_callback env pos) st) = isSupported st) /\
  (forall err,
      isSupported (state_after (error_callback err) st) = isSupported st) /\
  isSupported (state_after (mount_effect env) st)
  = isSupported st && geolocation_in_navigator env.
Proof.
  split; [by rewrite getLocationAndWeather_state|]. split; [|split].
  - intros pos. rewrite position_callback_state. cbn zeta.
    by destruct (Promise_all _ _ _) as [[area temp]|e].
  - done.
  - unfold state_after, mount_effect.
    destruct (geolocation_in_navigator env); cbn;
      [by rewrite andb_true_r | by rewrite andb_false_r].
Qed.

(** X13. In a browser with geolocation the mount effect does nothing, and
    in any browser running it twice is the same as running it once. *)
Theorem mount_effect_is_idempotent (env : Environment) (st : State) :
  (geolocation_in_navigator env = true ->
   mount_effect env st = (fulfilled tt, st, [])) /\
  state_after (mount_effect env) (state_after (mount_effect env) st)
  = state_after (mount_effect env) st /\
  issued (mount_effect env) st = [].
Proof.
  unfold state_after, issued, mount_effect.
  destruct (geolocation_in_navigator env); cbn; repeat split; done.
Qed.

Lemma mount_effect_is_idempotent_witness :
  mount_effect (Sample.online js_null j_null) Sample.earlier_success
  = (fulfilled tt, Sample.earlier_success, []).
Proof.
  destruct (mount_effect_is_idempotent (Sample.online js_null j_null)
              Sample.earlier_success) as [H _].
  apply H. reflexivity.
Defined.

(** ** The component in the browser *)

Import Lifecycle.

Section LifecycleFacts.

Lemma pending_zero sys :
  pending sys = 0 <-> awaiting sys = 0 /\ in_flight sys = [].
Proof.
  unfold pending. destruct (in_flight sys); cbn; split; intros H.
  - split; [lia | done].
  - lia.
  - lia.
  - by destruct H.
Qed.


Lemma consistent_mounted env :
  consistent (geolocation_in_navigator env)
    {| ui := state_after (mount_effect env) initial; awaiting := 0;
       in_flight := [] |}.
Proof.
  unfold consistent, state_after, mount_effect.
  destruct (geolocation_in_navigator env); cbn; repeat split; done.
Qed.

Lemma consistent_step geo ev sys :
  consistent geo sys ->
  (forall env, event_env ev = Some env -> geolocation_in_navigator env = geo) ->
  consistent geo (step ev sys).1.
Proof.
  destruct sys as [[sup stat err area temp upd] n waiting].
  unfold consistent. cbn [ui isSupported status error areaName tempC updatedAt].
  intros [-> Hinv] Henv.
  destruct ev as [env|env pos|i|failure].
  - (* a click *)
    specialize (Henv env eq_refl).
    unfold step, click, button_disabled. cbn.
    destruct geo, stat; cbn in Hinv |- *; try done;
      unfold getLocationAndWeather; rewrite ?Henv; cbn;
      destruct Hinv as (Hn & Hrest);
      try (apply pending_zero in Hn as [Hn Hw]; cbn in Hn, Hw; subst n waiting);
      unfold pending in *; cbn in *; repeat split; try tauto; lia.
  - (* the position arrives: the lookups start *)
    clear Henv. unfold step. cbn [awaiting ui in_flight].
    destruct n as [|n]; [by cbn|].
    destruct geo, stat; cbn in Hinv; try done;
      destruct Hinv as (Hn & Hrest); unfold pending in Hn; cbn in Hn;
      try lia.
    assert (n = 0 /\ waiting = []) as [-> ->]
      by (destruct waiting; cbn in Hn; split; (lia || done)).
    destruct Hrest as (-> & -> & -> & ->). cbn. by repeat split.
  - (* the lookups settle: the callback resumes *)
    clear Henv. unfold step. cbn [awaiting ui in_flight].
    destruct (waiting !! i) as [[env pos]|] eqn:Hi; [|by cbn].
    destruct geo, stat; cbn in Hinv; try done;
      destruct Hinv as (Hn & Hrest);
      destruct waiting as [|c [|c' rest]]; cbn in Hn, Hi; try done; try lia.
    destruct i as [|i]; [|done]. injection Hi as ->.
    destruct Hrest as (-> & -> & -> & ->).
    assert (n = 0) as -> by lia.
    cbn [fst ui]. rewrite position_callback_state. cbn zeta.
    destruct (Promise_all _ _ _) as [[label x]|e];
      cbn -[or_lit]; repeat split; eauto using shown_message_non_empty.
  - (* the position fails *)
    clear Henv. unfold step. cbn [awaiting ui in_flight].
    destruct n as [|n]; [by cbn|].
    destruct geo, stat; cbn in Hinv; try done;
      destruct Hinv as (Hn & Hrest); unfold pending in Hn; cbn in Hn;
      try lia.
    assert (n = 0 /\ waiting = []) as [-> ->]
      by (destruct waiting; cbn in Hn; split; (lia || done)).
    destruct Hrest as (-> & -> & -> & ->).
    cbn. repeat split; try done.
    eexists. split; [reflexivity|]. intros H.
    apply (f_equal String.length) in H. rewrite !app_length in H.
    cbn in H. lia.
Qed.

Lemma reachable_consistent geo sys : reachable geo sys -> consistent geo sys.
Proof.
  induction 1 as [env <- | ev sys _ IH Henv].
  - apply consistent_mounted.
  - by apply consistent_step.
Qed.

End LifecycleFacts.

(** The two halves of the success callback make up the whole: its
    requests go out when the position arrives, its writes happen when the
    lookups settle, on the state found then. *)
Lemma callback_halves (env : Environment) (pos : GeolocationPosition.t)
    (st : State) :
  let started :=
    step (position_found env pos)
      {| ui := st; awaiting := 1; in_flight := [] |} in
  let resumed := step (lookups_settled 0) started.1 in
  started = ({| ui := st; awaiting := 0; in_flight := [(env, pos)] |},
             issued (position_callback env pos) st) /\
  resumed = ({| ui := state_after (position_callback env pos) st;
                awaiting := 0; in_flight := [] |}, []).
Proof. split; reflexivity. Qed.

Lemma sample_in_flight_reachable : reachable true sample_in_flight.
Proof.
  apply reach_step; [apply reach_step; [by apply reach_mounted|]|];
    by intros env [= <-].
Qed.

Lemma sample_done_reachable : reachable true sample_done.
Proof. apply reach_step; [apply sample_in_flight_reachable | done]. Qed.




(** X15. Cycles never overlap: at most one cycle is in progress, that is,
    one [getCurrentPosition] call outstanding or one success callback
    waiting for its lookups; one is in progress exactly while the status
    is Requesting, and the button is disabled then. *)
Theorem cycles_never_overlap (geo : bool) (sys : Running) :
  reachable geo sys ->
  awaiting sys + length (in_flight sys) <= 1 /\
  (awaiting sys + length (in_flight sys) = 1
   <-> status (ui sys) = Status.requesting) /\
  (awaiting sys + length (in_flight sys) = 1 ->
   button_disabled (ui sys) = true).
Proof.
  intros Hreach. apply reachable_consistent in Hreach as [Hsup Hinv].
  unfold button_disabled. fold (pending sys).
  destruct geo, (status (ui sys)); try done;
    destruct Hinv as (-> & _); repeat split; try done; lia.
Qed.

Lemma cycles_never_overlap_witness :
  awaiting sample_in_flight + length (in_flight sample_in_flight) <= 1 /\
  (awaiting sample_in_flight + length (in_flight sample_in_flight) = 1
   <-> status (ui sample_in_flight) = Status.requesting) /\
  (awaiting sample_in_flight + length (in_flight sample_in_flight) = 1 ->
   button_disabled (ui sample_in_flight) = true).
Proof.
  apply (cycles_never_overlap true). apply sample_in_flight_reachable.
Defined.





(** X18. Nothing is retried on its own, and a new attempt is always
    possible: in a browser with geolocation, whenever the status is not
    Requesting, a click starts a cycle: the status becomes Requesting and
    exactly one request goes out, the position request. *)
Theorem click_starts_a_cycle (sys : Running) (env : Environment) :
  reachable true sys ->
  geolocation_in_navigator env = true ->
  status (ui sys) <> Status.requesting ->
  let after := step (clicked env) sys in
  status (ui after.1) = Status.requesting /\
  awaiting after.1 = 1 /\
  map snd after.2 =
  [getCurrentPosition
     {| enableHighAccuracy := true; timeout := 12000; maximumAge := 0 |}].
Proof.
  intros Hreach Hgeo Hstatus after. subst after.
  apply reachable_consistent in Hreach as [Hsup Hinv].
  destruct sys as [[sup stat err area temp upd] n waiting].
  cbn [ui isSupported status error areaName tempC updatedAt] in *. subst sup.
  unfold step, click, button_disabled, getLocationAndWeather. cbn.
  rewrite Hgeo.
  destruct stat; try done; destruct Hinv as (Hn & _);
    apply pending_zero in Hn as [Hn _]; cbn in Hn; subst n; by cbn.
Qed.

Lemma click_starts_a_cycle_witness :
  let env := Sample.online (js_object Sample.le_marais) (j_number Sample.mild) in
  let after := step (clicked env) sample_done in
  status (ui sample_done) = Status.success /\
  status (ui after.1) = Status.requesting /\
  awaiting after.1 = 1.
Proof.
  intros env after.
  destruct (click_starts_a_cycle sample_done env sample_done_reachable)
    as (Hs & Ha & _); [reflexivity | by vm_compute |].
  split; [vm_compute; reflexivity|]. split; [exact Hs | exact Ha].
Defined.

(** ** Rendering *)

(** X19. The badge tells the status: the four statuses get four different
    styles, and each of them keeps every property of [styles.badge]. *)
Theorem badge_style_tells_status :
  (forall s1 s2 : Status.t,
      Rendering.badgeStyle s1 = Rendering.badgeStyle s2 -> s1 = s2) /\
  (forall (s : Status.t) (k : string) (v : Rendering.css),
      Rendering.styles_badge !! k = Some v ->
      Rendering.badgeStyle s !! k = Some v).
Proof.
  split.
  - intros s1 s2 H.
    apply (f_equal (fun o => o !! "background")) in H.
    destruct s1, s2; try reflexivity; vm_compute in H; discriminate H.
  - intros s k v Hk.
    assert (k <> "background" /\ k <> "color" /\ k <> "borderColor")
      as (H1 & H2 & H3).
    { repeat split; intros ->; vm_compute in Hk; discriminate Hk. }
    unfold Rendering.badgeStyle.
    destruct s; cbn [Rendering.spread foldl fst snd];
      by rewrite !lookup_insert_ne.
Qed.

Lemma badge_style_tells_status_witness :
  Rendering.badgeStyle Status.error !! "padding"
  = Some (Rendering.css_text "6px 10px").
Proof.
  destruct badge_style_tells_status as [_ H]. apply H.
  vm_compute. reflexivity.
Defined.

(** X20. The button looks the way it behaves, in every state: it is
    dimmed (opacity 0.6) exactly when it is disabled, its cursor is
    "not-allowed" exactly when it is disabled, it reads "Loading..." only
    when it is disabled, and it keeps every property of [styles.button]. *)
Theorem button_looks_as_it_behaves (st : State) :
  let view := Rendering.render st in
  (Rendering.button_style view !! "opacity"
   = Some (Rendering.css_number Rendering.dimmed)
   <-> Rendering.button_is_disabled view = true) /\
  (Rendering.button_style view !! "cursor"
   = Some (Rendering.css_text "not-allowed")
   <-> Rendering.button_is_disabled view = true) /\
  (Rendering.button_label view = "Loading..." ->
   Rendering.button_is_disabled view = true) /\
  (forall k v, Rendering.styles_button !! k = Some v ->
               Rendering.button_style view !! k = Some v).
Proof.
  intros view. subst view. unfold Rendering.render, button_disabled.
  cbn [Rendering.button_style Rendering.button_is_disabled
       Rendering.button_label Rendering.spread foldl fst snd].
  split; [|split; [|split]].
  - rewrite lookup_insert_ne by done. rewrite lookup_insert_eq.
    destruct (Status.eqb (status st) Status.requesting || negb (isSupported st));
      split; try done; intros [= H]; discriminate H.
  - rewrite lookup_insert_eq.
    destruct (Status.eqb (status st) Status.requesting || negb (isSupported st));
      split; try done; intros [= H]; discriminate H.
  - destruct (Status.eqb (status st) Status.requesting); [done|].
    intros H. discriminate H.
  - intros k v Hk.
    assert (k <> "opacity" /\ k <> "cursor") as (H1 & H2).
    { split; intros ->; vm_compute in Hk; discriminate Hk. }
    by rewrite !lookup_insert_ne.
Qed.

Lemma button_looks_as_it_behaves_witness :
  Rendering.button_is_disabled (Rendering.render Sample.earlier_success) = false
  /\ Rendering.button_style (Rendering.render Sample.earlier_success) !! "color"
     = Some (Rendering.css_text "#fff").
Proof.
  destruct (button_looks_as_it_behaves Sample.earlier_success)
    as (_ & _ & _ & H).
  split; [reflexivity|]. apply H. vm_compute. reflexivity.
Defined.
